(* ===== verification/_CoqProject ===== *)
-Q . S2P
Prelude.v
Config.v
Model.v
Json.v
Store.v
Response.v
Service.v
Consumer.v
Handler.v
Router.v
System.v
Scenarios.v
Interleaving.v
CacheMu.v
Main.v
Process.v
