(* ===== verification/Prelude.v ===== *)
(** * A verification development of cache-app

    cache-app (Go) consumes order events from Kafka, persists them in
    PostgreSQL and serves lookups over HTTP through an in-memory cache.

    ** The program and how its parts interact
    - [internal/repository]: [db.go] creates table [orders]; [order_repo.go]
      implements the interface [OrderRepository] with [SaveOrder] (an
      [INSERT ... ON CONFLICT (order_uid) DO UPDATE] of six of the fourteen
      columns; an empty identifier is replaced by [uuid.NewString()]),
      [GetOrderByUID] (a point query whose three JSONB columns are decoded
      with errors ignored) and [GetAllOrders] (list the identifiers, fetch
      each, skip failures, never consult [rows.Err()]).
    - [internal/service/order_service.go]: [orderService], a
      [map[string]*model.Order] behind one [sync.RWMutex], with
      [CreateOrder] (write-through), [GetOrderByUID] (read-through),
      [RestoreCacheFromDB] (run once by [NewOrderService]) and the
      projection [modelToResponse]/[itemsToResponse].
    - [internal/kafka/consumer.go]: one goroutine per partition; each
      message is decoded ([json.Unmarshal]), dropped without [order_uid],
      and passed to [CreateOrder], whose error is only logged.
    - [internal/api]: [router.go]'s [SetupRoutes] registers the Swagger
      route, [GET /health] and [GET /api/v1/orders/:id] on gin; the
      handlers [GetOrderByUID] (400, 404 for every service error, 200) and
      [HealthCheck].
    - [internal/config/config.go]: [Load] reads [HTTP_PORT],
      [DATABASE_URL], [KAFKA_BROKERS] (split on commas) and [KAFKA_TOPIC]
      through caarlos0/env, each with a default.
    - [cmd/server/main.go] wires them: [Load], [NewPostgresDB] (parse the
      URL, open the pool, ping, [createTables]), [NewOrderService] (which
      restores the cache), [NewConsumer] and [go Start()] ([Partitions],
      then one [consumePartition] per partition from [OffsetNewest]), the
      router and [go ListenAndServe()]; every start-up error is a
      [log.Fatalf]; on a signal, [srv.Shutdown] and the deferred closes.
    The handlers and the consumer's loops share the one [orderService]
    value and its database; a [log.Fatalf] in any goroutine ends the
    whole process.
    The service sees the store only through [OrderRepository]; consumer
    and handler see the service only through [OrderService].

    ** Files, in dependency order
    - [Prelude] (this file): Go's [(T, error)] as [result]; the
      state/error monad [StM] ([S -> S * result E A], effects kept before
      an error, as in Go) with [let*]; the int64/int32 bounds; [insert_each]
      (a [for range] loop filling a map) and its lemmas; [split_on] and
      [join_on] ([strings.Split] and [strings.Join] on one character);
      [star], the reflexive-transitive closure of a step relation, and
      [lex_ind]; the hint databases [cache_app] and [cache_rw] and the
      tactics [split_andb] and [rewrite_bounds].
    - [Config]: the struct [Config], [getOr] (the variable, or the
      default when unset or empty), [split_comma] ([split_on] ","),
      [Load].
    - [Model]: the structs of [internal/model] ([Order], [Delivery],
      [Payment], [Item]) with a field setter each and [wf] (every Go [int]
      within int64, [DateCreated] a time Go's [parseRFC3339] accepts, with
      [rfc3339] its check).  That package is not in the sources: the
      structs are rebuilt from the spec's event schema and the fields the
      code uses.
    - [Json]: JSON values and [encoding/json] on these structs: key
      matching up to [foldName], [null], type errors that are recorded
      while decoding goes on and fail the whole [Unmarshal], int64
      overflow, numbers with a fraction or an exponent; [json.Marshal] of
      the nested structs stored in JSONB columns and its inverse; the
      decoder's int64 bound.
    - [Store]: the errors, the classes [OrderRepository] (the Go interface)
      and [RepositoryLaws] (what the service needs of any repository: a
      view [stored] of what reads return, how a save changes it, that reads
      leave it alone), the table as [gmap string Row], and [Module PgRepo]:
      [roundtrip], [NewString], [order_row], [fits] (VARCHAR limits),
      [on_conflict], [upsert], [exec_upsert] (sm_id checked as an INTEGER
      first), [SaveOrder], [row_order], [GetOrderByUID], [scan_rows],
      [GetAllOrders]; instance [pg_laws] proves [PgRepo] lawful, with
      [merge_order] as what a reader sees after an upsert.
    - [Response]: the response structs, [itemToResponse],
      [itemsToResponse] (the append loop) and [modelToResponse].
    - [Service]: [Sys W] (cache and repository state), the class
      [OrderService], [Module orderService] with the three methods and
      [NewOrderService] written once for any repository; their behaviour
      branch by branch; [coherent] (every cached order is what the store
      would return, up to the columns the upsert keeps), kept by each
      method called alone, against [RepositoryLaws] only.
    - [Consumer]: messages, [decodeMessage], [processMessage], one
      partition's loop ([consumeEvent], [consumePartition]); what the
      broker answers at start ([Broker]), [Start] (the partitions whose
      [ConsumePartition] succeeded) and which events a loop started at
      [OffsetNewest] receives ([delivered]).
    - [Handler]: the handlers, the responses they write, [answer] (the
      200 with an order).
    - [Router]: [SetupRoutes] as a table of routes, gin's dispatch on it
      ([match_segs] for literal, [:param] and [*catch-all] segments,
      [find_route], [route] with the trailing-slash redirect and the 404),
      [ServeHTTP]; [route_spec] spells out which request reaches which
      handler, and [route_SetupRoutes] proves gin's dispatch equal to it.
    - [System]: the program over PostgreSQL ([App = Sys DB]): saves on a
      database that answers ([saveable]: what [SaveOrder] needs to
      succeed), the sm_id and VARCHAR overflows, the columns the upsert
      keeps and what a restart answers, cold start behind a failing
      connection ([with_faults]), a failed write, restore errors, and a
      message then served.
    - [Scenarios]: the spec's section-8 scenarios run by the kernel on
      concrete messages, and the closed instances of the general theorems.
    - [Interleaving]: each method as its atomic steps (store calls outside
      the lock, cache accesses as critical sections of [cacheMu]), a step
      relation over a pool of calls, and what holds under every
      interleaving; [dcoh], coherence except at identifiers whose update is
      between its save and its cache write, kept when the calls in
      progress are about distinct identifiers.
    - [CacheMu]: the same methods statement by statement under the
      RWMutex ([lthread], [lexec], [lstep]): [RLock] blocks while a writer
      holds [cacheMu], [Lock] while anyone holds it, the restore loop
      writes one entry per step, the deferred [Unlock] ends it.  [abs]
      maps a lock-level configuration to an atomic one (a thread inside a
      critical section to the point after it, the loop's pending writes
      done), [excl] is the exclusion of the write lock, [lcall] places a
      call of [Interleaving] at the lock level.  The results of
      [Interleaving] are carried over through [abs]; the races are run
      statement by statement ([lrun_sched]).
    - [Main]: the process as a state and error monad over a [Host] (the
      environment, a script answering each library call of start-up, the
      trace of observable actions: connection, consumer started, server
      listening, exit, closes) and the database: [libcall] (the next
      answer of the script), [emit], [wrap] ([fmt.Errorf] with [%w]),
      [external], [createTables], [NewPostgresDB], [NewConsumer] and
      [ConsumerClose] of [kafka/consumer.go], [main] up to the wait for a
      signal, and [shutdown]; [main_inv] describes every run of [main].
    - [Process]: the running process as a state machine ([PState],
      [pstep], [run], [process]): after [boot] (= [main]), inputs one at a
      time: requests, the consumer's [Start], partition events, a failure
      of [ListenAndServe], the signal.  Invariants are proved by induction
      over the inputs ([run_inv]); they are about the process's phases,
      which the overlap of service calls does not affect.

    ** What the theorems show
    - Service: read-your-writes for any lawful repository; a failed write
      leaves the cache alone; a failed read changes nothing; nothing is
      ever evicted.
    - Store and schema: a saved order reads back unchanged (the JSONB
      columns' round trip); the upsert keeps seven columns of the old row,
      so after a restart the service answers the first version's
      [oof_shard]; an sm_id beyond 32 bits or a string beyond its VARCHAR
      makes the save fail and the message is lost; restore reports an
      error only when its first query fails.
    - Projection: exactly which fields a response keeps.
    - End to end: every message that decodes to a storable order is then
      served with 200 (scenario A); a message without [order_uid] or that
      does not decode is dropped (B); after a cold start a restored order
      is served with the database down (C); a failed write is a 404 (D);
      a field of the wrong type (an impossible date, a fractional
      [sm_id]) drops the whole message.
    - HTTP: 404 exactly on a service error; 400 unreachable behind the
      router; only [GET /api/v1/orders/:id] reaches the service, every
      other request leaves its state alone.
    - Concurrency, under the RWMutex statement by statement: the write
      lock stays exclusive and every interleaving is matched by one of the
      atomic sections (a stuttering simulation, [lexec_sim]), so cached
      keys stay stored keys; no call waits forever on the mutex; calls on
      pairwise distinct identifiers leave the cache coherent once they
      have returned (and, over the atomic sections, lose no update); on
      one identifier, a lookup
      racing an update, or two updates from two partitions, can leave the
      cache holding an older order than the table, served from then on.
    - The running process: the deferred closes happen only after a
      successful [Shutdown], never after a [log.Fatalf], and an ended
      process ignores what follows.
    - Start-up and shutdown: a successful start serves the restored
      service after connecting, starting the consumer and listening, in
      that order; a fatal start never starts the consumer or the server;
      a successful shutdown closes the consumer before the pool, a failed
      one closes neither.

    ** Bounds and fuel
    No definition needs fuel: every loop of the program runs over a finite
    list ([foldl], structural recursion).  Integers are [Z] with explicit
    range checks: Go's [int] as int64 ([in_int64]) where [encoding/json]
    checks it, PostgreSQL's INTEGER as int32 ([in_int32]) where pgx
    encodes it.  Termination of the lock-level calls needs no bound: it is
    proved by induction on the pair of the stages left and the restore
    loop's writes left ([lex_ind]), since [GetAllOrders] can return any
    number of orders.  A [Host]'s script, or a database's fault script,
    that runs out answers every further call with success.

    ** Not modelled
    The byte-level scanner of [encoding/json] (a library the program only
    calls: a message that is not JSON text is the value [None]); a [time.Time]
    beyond its (validated) text, so two texts of one instant differ and
    the database's normalisation of [TIMESTAMPTZ] is not modelled;
    non-ASCII case folding; uuid randomness (a counter); SQL
    text, pgx and the pool (a fault script answers each round trip);
    the store's own concurrency (each repository call is one atomic
    step); log text (only the observable actions are traced) and the
    handler's [print] to stderr; the content of the Swagger files; gin's
    [joinPaths] beyond the concatenation the one group needs; sarama's
    fetching, which is abstracted into the events each partition loop
    receives; the in-flight requests [Shutdown] waits for; the
    [RWMutex]'s preference for a waiting writer (it only removes
    interleavings, so every theorem proved for all interleavings holds
    for Go's, and the races use no interleaving it forbids: no writer is
    waiting when a reader takes [RLock] in them). *)

From stdpp Require Export base gmap strings list option.
From Stdlib Require Export ZArith.

(** ** Results of fallible operations: Go's [(T, error)] *)

Inductive result (E A : Type) : Type :=
| Ok (a : A)
| Err (e : E).
Arguments Ok {E A} a.
Arguments Err {E A} e.

Definition is_ok {E A} (r : result E A) : bool :=
  match r with Ok _ => true | Err _ => false end.

(** ** A state and error monad

    An operation of the program that touches state [S] and may fail with
    [E] is a function [S -> S * result E A].  As in Go, an error does not
    roll back the effects that happened before it. *)

Definition StM (S E A : Type) : Type := S -> S * result E A.

Definition ret {S E A} (a : A) : StM S E A := fun s => (s, Ok a).
Definition fail {S E A} (e : E) : StM S E A := fun s => (s, Err e).
Definition get {S E} : StM S E S := fun s => (s, Ok s).
Definition put {S E} (s' : S) : StM S E unit := fun _ => (s', Ok tt).
Definition modify {S E} (f : S -> S) : StM S E unit := fun s => (f s, Ok tt).

Definition bind {S E A B} (m : StM S E A) (k : A -> StM S E B) : StM S E B :=
  fun s => let '(s', r) := m s in
           match r with Ok a => k a s' | Err e => (s', Err e) end.

(** Lift an operation on a component [T] of the state [S]. *)
Definition focus {S T E A} (proj : S -> T) (upd : T -> S -> S)
    (m : StM T E A) : StM S E A :=
  fun s => let '(t', r) := m (proj s) in (upd t' s, r).

Declare Scope go_scope.
Delimit Scope go_scope with go.
Notation "'let*' x ':=' m 'in' k" := (bind m (fun x => k))
  (at level 10, x name, m at level 100, k at level 200) : go_scope.
Open Scope go_scope.

Lemma bind_ret_l {S E A B} (a : A) (k : A -> StM S E B) s :
  bind (ret a) k s = k a s.
Proof. reflexivity. Qed.

Lemma bind_fail_l {S E A B} (e : E) (k : A -> StM S E B) s :
  bind (fail e) k s = (s, Err e).
Proof. reflexivity. Qed.

Lemma bind_ok {S E A B} (m : StM S E A) (k : A -> StM S E B) s s' a :
  m s = (s', Ok a) -> bind m k s = k a s'.
Proof. unfold bind. by intros ->. Qed.

Lemma bind_err {S E A B} (m : StM S E A) (k : A -> StM S E B) s s' e :
  m s = (s', Err e) -> bind m k s = (s', Err e).
Proof. unfold bind. by intros ->. Qed.

(** Every run of [bind m k] first runs [m]. *)
Lemma bind_inv {S E A B} (m : StM S E A) (k : A -> StM S E B) s s'' r :
  bind m k s = (s'', r) ->
  (exists s' e, m s = (s', Err e) /\ s'' = s' /\ r = Err e) \/
  (exists s' a, m s = (s', Ok a) /\ k a s' = (s'', r)).
Proof.
  unfold bind. destruct (m s) as [s' [a|e]]; intros H.
  - right. eauto.
  - left. inversion H; subst. eauto.
Qed.

(** ** Machine integers

    Go's [int] is 64 bits wide on the platforms the service is built for;
    PostgreSQL's [INTEGER] is 32 bits wide. *)

Definition int64_min : Z := - 2 ^ 63.
Definition int64_max : Z := 2 ^ 63 - 1.
Definition int32_min : Z := - 2 ^ 31.
Definition int32_max : Z := 2 ^ 31 - 1.

Definition in_int64 (z : Z) : bool := (int64_min <=? z)%Z && (z <=? int64_max)%Z.
Definition in_int32 (z : Z) : bool := (int32_min <=? z)%Z && (z <=? int32_max)%Z.

Lemma in_int64_spec z : in_int64 z = true <-> (int64_min <= z <= int64_max)%Z.
Proof. unfold in_int64. rewrite andb_true_iff, !Z.leb_le. done. Qed.

Lemma in_int32_spec z : in_int32 z = true <-> (int32_min <= z <= int32_max)%Z.
Proof. unfold in_int32. rewrite andb_true_iff, !Z.leb_le. done. Qed.

Lemma in_int32_int64 z : in_int32 z = true -> in_int64 z = true.
Proof.
  rewrite in_int32_spec, in_int64_spec.
  unfold int32_min, int32_max, int64_min, int64_max. lia.
Qed.

(** ** Inserting a sequence of values into a map

    [for _, x := range xs { m[key(x)] = x }]: later elements win. *)

Definition insert_each {K A} `{Countable K} (key : A -> K)
    (xs : list A) (m : gmap K A) : gmap K A :=
  foldl (fun m x => <[key x := x]> m) m xs.

Section insert_each.
Context {K A : Type} `{Countable K} (key : A -> K).

(** The last element of [xs] with key [k]. *)
Fixpoint last_with (k : K) (xs : list A) : option A :=
  match xs with
  | [] => None
  | x :: xs' =>
      match last_with k xs' with
      | Some y => Some y
      | None => if decide (key x = k) then Some x else None
      end
  end.

Lemma lookup_insert_each xs m k :
  insert_each key xs m !! k =
  match last_with k xs with Some x => Some x | None => m !! k end.
Proof.
  unfold insert_each. revert m.
  induction xs as [|x xs IH]; intros m; simpl; [done|].
  rewrite IH. destruct (last_with k xs); [done|].
  rewrite lookup_insert. by case_decide.
Qed.

Lemma last_with_key k xs x : last_with k xs = Some x -> key x = k /\ x ∈ xs.
Proof.
  induction xs as [|y xs IH]; simpl; [done|].
  destruct (last_with k xs) eqn:E.
  - intros [= <-]. destruct (IH eq_refl). split; [done|]. by right.
  - case_decide; [|done]. intros [= <-]. split; [done|]. by left.
Qed.

Lemma last_with_None k xs : last_with k xs = None <-> Forall (fun x => key x <> k) xs.
Proof.
  induction xs as [|y xs IH]; simpl; [split; constructor|].
  split.
  - destruct (last_with k xs); [done|]. case_decide; [done|].
    intros _. constructor; [done|]. by apply IH.
  - intros HF. inversion HF as [|? ? Hy Hxs]; subst.
    rewrite (proj2 IH Hxs). by case_decide.
Qed.

Lemma insert_each_elem xs m k x :
  insert_each key xs m !! k = Some x -> m !! k = Some x \/ (key x = k /\ x ∈ xs).
Proof.
  rewrite lookup_insert_each. destruct (last_with k xs) eqn:E.
  - intros [= <-]. right. by apply last_with_key.
  - by left.
Qed.
(** With pairwise distinct keys, the last element with key [k] is the
    only one. *)
Lemma last_with_unique xs x k :
  NoDup (map key xs) -> x ∈ xs -> key x = k -> last_with k xs = Some x.
Proof.
  intros Hnd Hx Hk. subst k. revert Hnd Hx.
  induction xs as [|y xs IH]; [by intros _ ?%not_elem_of_nil|].
  simpl. intros Hnd0 Hx.
  pose proof (NoDup_cons_1_1 _ _ Hnd0) as Hy. pose proof (NoDup_cons_1_2 _ _ Hnd0) as Hnd.
  apply elem_of_cons in Hx as [->|Hx].
  - assert (last_with (key y) xs = None) as ->.
    { apply last_with_None, Forall_forall. intros z Hz Hzk. apply Hy.
      rewrite <- Hzk. apply list_elem_of_In, in_map, Hz. }
    by rewrite decide_True.
  - by rewrite (IH Hnd Hx).
Qed.
End insert_each.

(** ** Splitting on a separator

    [strings.Split(s, sep)] for a one-character [sep]: the pieces between
    separators, in order; [""] gives [[""]].  [join_on] is [strings.Join]. *)

Section split.
Context (sep : Ascii.ascii).

Fixpoint split_on (s : string) : list string :=
  match s with
  | EmptyString => [""]
  | String c s' =>
      let rest := split_on s' in
      if Ascii.eqb c sep then "" :: rest
      else match rest with
           | r :: rs => String c r :: rs
           | [] => [String c ""]
           end
  end.

Fixpoint join_on (xs : list string) : string :=
  match xs with
  | [] => ""
  | [x] => x
  | x :: xs' => x +:+ String sep (join_on xs')
  end.

End split.

(** ** Sequences of steps

    [star R] is the reflexive-transitive closure of a step relation [R]:
    zero or more steps. *)

Section star.
Context {A : Type} (R : A -> A -> Prop).

Inductive star : A -> A -> Prop :=
| star_refl a : star a a
| star_step a b c : R a b -> star b c -> star a c.

Lemma star_trans a b c : star a b -> star b c -> star a c.
Proof. induction 1; eauto using star. Qed.

(** A property preserved by every step holds after any number of them. *)
Lemma star_ind_inv (P : A -> Prop) a b :
  (forall x y, R x y -> P x -> P y) -> star a b -> P a -> P b.
Proof. intros HR Hs. induction Hs; eauto. Qed.
End star.

Lemma forallb_lookup_true {A} (f : A -> bool) (l : list A) i x :
  forallb f l = true -> l !! i = Some x -> f x = true.
Proof.
  revert i. induction l as [|y l IH]; intros [|i]; simpl; try done.
  - by intros [? ?]%andb_prop [= <-].
  - intros [? ?]%andb_prop ?. by eapply IH.
Qed.

Lemma forallb_false_lookup {A} (f : A -> bool) (l : list A) :
  forallb f l = false -> exists i x, l !! i = Some x /\ f x = false.
Proof.
  induction l as [|y l IH]; simpl; [done|].
  destruct (f y) eqn:Hy; simpl.
  - intros (i & x & Hi & Hx)%IH. by exists (S i), x.
  - intros _. by exists 0, y.
Qed.

(** Replacing one element of a list changes a sum over it by the
    difference. *)
Lemma sum_list_with_insert {A} (f : A -> nat) (l : list A) i x y :
  l !! i = Some x -> sum_list_with f (<[i := y]> l) + f x = sum_list_with f l + f y.
Proof.
  revert i. induction l as [|z l IH]; intros [|i] Hi; simplify_eq/=; [lia|].
  specialize (IH i Hi). lia.
Qed.

(** Induction on a pair of numbers ordered lexicographically. *)
Lemma lex_ind (P : nat -> nat -> Prop) :
  (forall n m, (forall n' m', n' < n \/ (n' = n /\ m' < m) -> P n' m') -> P n m) ->
  forall n m, P n m.
Proof.
  intros IH n. induction n as [n IHn] using (well_founded_induction lt_wf).
  intros m. induction m as [m IHm] using (well_founded_induction lt_wf).
  apply IH. intros n' m' [Hlt|[-> Hlt]]; auto.
Qed.

(** ** Automation *)

Create HintDb cache_app.
Create Rewrite HintDb cache_rw.
#[export] Hint Resolve in_int32_int64 star_trans : cache_app.
#[export] Hint Constructors star : cache_app.
#[export] Hint Rewrite @lookup_insert_each : cache_rw.

(** Break boolean conjunctions in the hypotheses into their parts. *)
Ltac split_andb :=
  repeat match goal with
  | H : _ && _ = true |- _ => apply andb_prop in H as [? ?]
  end.

(** Use the bound hypotheses [in_int64 z = true] of the context. *)
Ltac rewrite_bounds :=
  repeat match goal with H : in_int64 _ = true |- _ => rewrite H; clear H end.
