(* ===== verification/Model.v ===== *)
(** * The data model: [model.Order] and its nested records

    The Go package [internal/model] is not part of the sources at hand; its
    structs are reconstructed from the spec (sections 3 and 6), from the
    columns of table [orders] ([db.go]) and from the fields that
    [modelToResponse] reads ([order_service.go]).  Go [int] fields are [Z]
    with the invariant [wf] that they fit in 64 bits; [time.Time] is kept
    as its RFC 3339 text, the form in which [encoding/json] carries it,
    and [wf] also asks that text to parse. *)

From S2P Require Import Prelude.
From Stdlib Require Import Ascii.

(** ** [time.Time] values

    A [time.Time] is carried as its RFC 3339 text.  [rfc3339] is the check
    of Go's [parseRFC3339] ([time/format_rfc3339.go]), which
    [Time.UnmarshalJSON] applies: [YYYY-MM-DDTHH:MM:SS], an optional
    fraction [.d+], then [Z] or [+hh:mm]/[-hh:mm], every number in its
    range and the day within its month. *)

Definition digit_val (c : ascii) : option nat :=
  let n := nat_of_ascii c in
  if (48 <=? n) && (n <=? 57) then Some (n - 48) else None.

Fixpoint parse_uint (cs : list ascii) (acc : nat) : option nat :=
  match cs with
  | [] => Some acc
  | c :: cs' => match digit_val c with Some d => parse_uint cs' (acc * 10 + d) | None => None end
  end.

(** [parseUint(s, min, max)]. *)
Definition in_range (cs : list ascii) (lo hi : nat) : option nat :=
  match parse_uint cs 0 with
  | Some x => if (lo <=? x) && (x <=? hi) then Some x else None
  | None => None
  end.

Definition is_leap (y : nat) : bool :=
  (y mod 4 =? 0) && (negb (y mod 100 =? 0) || (y mod 400 =? 0)).

(** [daysIn(month, year)]. *)
Definition days_in (m y : nat) : nat :=
  match m with
  | 2 => if is_leap y then 29 else 28
  | 4 | 6 | 9 | 11 => 30
  | _ => 31
  end.

Definition is_some {A} (o : option A) : bool := match o with Some _ => true | None => false end.

Fixpoint skip_digits (cs : list ascii) : list ascii :=
  match cs with
  | c :: cs' => if is_some (digit_val c) then skip_digits cs' else cs
  | [] => []
  end.

(** The fractional second: a period and at least one digit. *)
Definition skip_fraction (cs : list ascii) : list ascii :=
  match cs with
  | c :: d :: cs' => if Ascii.eqb c "." && is_some (digit_val d) then skip_digits cs' else cs
  | _ => cs
  end.

Definition zone_ok (cs : list ascii) : bool :=
  match cs with
  | [z] => Ascii.eqb z "Z"
  | [sg; h1; h2; colon; m1; m2] =>
      (Ascii.eqb sg "+" || Ascii.eqb sg "-") && Ascii.eqb colon ":" &&
      is_some (in_range [h1; h2] 0 23) && is_some (in_range [m1; m2] 0 59)
  | _ => false
  end.

Definition rfc3339 (s : string) : bool :=
  let cs := String.list_ascii_of_string s in
  let sub i n := firstn n (skipn i cs) in
  let char_at i := nth i cs Ascii.zero in
  (19 <=? length cs) &&
  match in_range (sub 0 4) 0 9999, in_range (sub 5 2) 1 12 with
  | Some y, Some m =>
      is_some (in_range (sub 8 2) 1 (days_in m y)) && is_some (in_range (sub 11 2) 0 23) &&
      is_some (in_range (sub 14 2) 0 59) && is_some (in_range (sub 17 2) 0 59) &&
      Ascii.eqb (char_at 4) "-" && Ascii.eqb (char_at 7) "-" && Ascii.eqb (char_at 10) "T" &&
      Ascii.eqb (char_at 13) ":" && Ascii.eqb (char_at 16) ":" &&
      zone_ok (skip_fraction (skipn 19 cs))
  | _, _ => false
  end.

(** The zero [time.Time], as [json.Marshal] writes it. *)
Definition zero_time : string := "0001-01-01T00:00:00Z".

Module Delivery.
Record t := mk {
  Name : string; Phone : string; Zip : string; City : string;
  Address : string; Region : string; Email : string }.

(** Go's zero value [model.Delivery{}]. *)
Definition zero : t := mk "" "" "" "" "" "" "".

(** Field assignment [x.F = v], one per field. *)
Definition set_Name v (x : t) : t :=
  mk v (Phone x) (Zip x) (City x) (Address x) (Region x) (Email x).
Definition set_Phone v (x : t) : t :=
  mk (Name x) v (Zip x) (City x) (Address x) (Region x) (Email x).
Definition set_Zip v (x : t) : t :=
  mk (Name x) (Phone x) v (City x) (Address x) (Region x) (Email x).
Definition set_City v (x : t) : t :=
  mk (Name x) (Phone x) (Zip x) v (Address x) (Region x) (Email x).
Definition set_Address v (x : t) : t :=
  mk (Name x) (Phone x) (Zip x) (City x) v (Region x) (Email x).
Definition set_Region v (x : t) : t :=
  mk (Name x) (Phone x) (Zip x) (City x) (Address x) v (Email x).
Definition set_Email v (x : t) : t :=
  mk (Name x) (Phone x) (Zip x) (City x) (Address x) (Region x) v.
End Delivery.

#[export] Instance delivery_eq_dec : EqDecision Delivery.t.
Proof. solve_decision. Defined.

Module Payment.
Record t := mk {
  Transaction : string; Currency : string; Provider : string;
  Amount : Z; PaymentDT : Z; Bank : string;
  DeliveryCost : Z; GoodsTotal : Z }.

Definition zero : t := mk "" "" "" 0 0 "" 0 0.

(** Field assignment [x.F = v], one per field. *)
Definition set_Transaction v (x : t) : t :=
  mk v (Currency x) (Provider x) (Amount x) (PaymentDT x) (Bank x)
    (DeliveryCost x) (GoodsTotal x).
Definition set_Currency v (x : t) : t :=
  mk (Transaction x) v (Provider x) (Amount x) (PaymentDT x) (Bank x)
    (DeliveryCost x) (GoodsTotal x).
Definition set_Provider v (x : t) : t :=
  mk (Transaction x) (Currency x) v (Amount x) (PaymentDT x) (Bank x)
    (DeliveryCost x) (GoodsTotal x).
Definition set_Amount v (x : t) : t :=
  mk (Transaction x) (Currency x) (Provider x) v (PaymentDT x) (Bank x)
    (DeliveryCost x) (GoodsTotal x).
Definition set_PaymentDT v (x : t) : t :=
  mk (Transaction x) (Currency x) (Provider x) (Amount x) v (Bank x)
    (DeliveryCost x) (GoodsTotal x).
Definition set_Bank v (x : t) : t :=
  mk (Transaction x) (Currency x) (Provider x) (Amount x) (PaymentDT x) v
    (DeliveryCost x) (GoodsTotal x).
Definition set_DeliveryCost v (x : t) : t :=
  mk (Transaction x) (Currency x) (Provider x) (Amount x) (PaymentDT x)
    (Bank x) v (GoodsTotal x).
Definition set_GoodsTotal v (x : t) : t :=
  mk (Transaction x) (Currency x) (Provider x) (Amount x) (PaymentDT x)
    (Bank x) (DeliveryCost x) v.

(** Every [int] field fits in 64 bits. *)
Definition wf (p : t) : bool :=
  in_int64 (Amount p) && in_int64 (PaymentDT p) &&
  in_int64 (DeliveryCost p) && in_int64 (GoodsTotal p).
End Payment.

#[export] Instance payment_eq_dec : EqDecision Payment.t.
Proof. solve_decision. Defined.

Module Item.
Record t := mk {
  ChrtID : Z; TrackNumber : string; Price : Z; Rid : string;
  Name : string; Sale : Z; Size : string; TotalPrice : Z;
  NmID : Z; Brand : string; Status : Z }.

Definition zero : t := mk 0 "" 0 "" "" 0 "" 0 0 "" 0.

(** Field assignment [x.F = v], one per field. *)
Definition set_ChrtID v (x : t) : t :=
  mk v (TrackNumber x) (Price x) (Rid x) (Name x) (Sale x) (Size x)
    (TotalPrice x) (NmID x) (Brand x) (Status x).
Definition set_TrackNumber v (x : t) : t :=
  mk (ChrtID x) v (Price x) (Rid x) (Name x) (Sale x) (Size x)
    (TotalPrice x) (NmID x) (Brand x) (Status x).
Definition set_Price v (x : t) : t :=
  mk (ChrtID x) (TrackNumber x) v (Rid x) (Name x) (Sale x) (Size x)
    (TotalPrice x) (NmID x) (Brand x) (Status x).
Definition set_Rid v (x : t) : t :=
  mk (ChrtID x) (TrackNumber x) (Price x) v (Name x) (Sale x) (Size x)
    (TotalPrice x) (NmID x) (Brand x) (Status x).
Definition set_Name v (x : t) : t :=
  mk (ChrtID x) (TrackNumber x) (Price x) (Rid x) v (Sale x) (Size x)
    (TotalPrice x) (NmID x) (Brand x) (Status x).
Definition set_Sale v (x : t) : t :=
  mk (ChrtID x) (TrackNumber x) (Price x) (Rid x) (Name x) v (Size x)
    (TotalPrice x) (NmID x) (Brand x) (Status x).
Definition set_Size v (x : t) : t :=
  mk (ChrtID x) (TrackNumber x) (Price x) (Rid x) (Name x) (Sale x) v
    (TotalPrice x) (NmID x) (Brand x) (Status x).
Definition set_TotalPrice v (x : t) : t :=
  mk (ChrtID x) (TrackNumber x) (Price x) (Rid x) (Name x) (Sale x)
    (Size x) v (NmID x) (Brand x) (Status x).
Definition set_NmID v (x : t) : t :=
  mk (ChrtID x) (TrackNumber x) (Price x) (Rid x) (Name x) (Sale x)
    (Size x) (TotalPrice x) v (Brand x) (Status x).
Definition set_Brand v (x : t) : t :=
  mk (ChrtID x) (TrackNumber x) (Price x) (Rid x) (Name x) (Sale x)
    (Size x) (TotalPrice x) (NmID x) v (Status x).
Definition set_Status v (x : t) : t :=
  mk (ChrtID x) (TrackNumber x) (Price x) (Rid x) (Name x) (Sale x)
    (Size x) (TotalPrice x) (NmID x) (Brand x) v.

Definition wf (i : t) : bool :=
  in_int64 (ChrtID i) && in_int64 (Price i) && in_int64 (Sale i) &&
  in_int64 (TotalPrice i) && in_int64 (NmID i) && in_int64 (Status i).
End Item.

#[export] Instance item_eq_dec : EqDecision Item.t.
Proof. solve_decision. Defined.

Module Order.
Record t := mk {
  OrderUID : string; TrackNumber : string; Entry : string;
  Delivery : Delivery.t; Payment : Payment.t; Items : list Item.t;
  Locale : string; InternalSignature : string; CustomerID : string;
  DeliveryService : string; Shardkey : string; SmID : Z;
  DateCreated : string; OofShard : string }.

#[export] Instance eq_dec : EqDecision t.
Proof. solve_decision. Defined.

Definition zero : t :=
  mk "" "" "" Delivery.zero Payment.zero [] "" "" "" "" "" 0 zero_time "".

Definition wf (o : t) : bool :=
  Payment.wf (Payment o) && forallb Item.wf (Items o) && in_int64 (SmID o) &&
  rfc3339 (DateCreated o).

(** Field assignment [x.F = v], one per field. *)
Definition set_OrderUID v (x : t) : t :=
  mk v (TrackNumber x) (Entry x) (Delivery x) (Payment x) (Items x)
    (Locale x) (InternalSignature x) (CustomerID x) (DeliveryService x)
    (Shardkey x) (SmID x) (DateCreated x) (OofShard x).
Definition set_TrackNumber v (x : t) : t :=
  mk (OrderUID x) v (Entry x) (Delivery x) (Payment x) (Items x)
    (Locale x) (InternalSignature x) (CustomerID x) (DeliveryService x)
    (Shardkey x) (SmID x) (DateCreated x) (OofShard x).
Definition set_Entry v (x : t) : t :=
  mk (OrderUID x) (TrackNumber x) v (Delivery x) (Payment x) (Items x)
    (Locale x) (InternalSignature x) (CustomerID x) (DeliveryService x)
    (Shardkey x) (SmID x) (DateCreated x) (OofShard x).
Definition set_Delivery v (x : t) : t :=
  mk (OrderUID x) (TrackNumber x) (Entry x) v (Payment x) (Items x)
    (Locale x) (InternalSignature x) (CustomerID x) (DeliveryService x)
    (Shardkey x) (SmID x) (DateCreated x) (OofShard x).
Definition set_Payment v (x : t) : t :=
  mk (OrderUID x) (TrackNumber x) (Entry x) (Delivery x) v (Items x)
    (Locale x) (InternalSignature x) (CustomerID x) (DeliveryService x)
    (Shardkey x) (SmID x) (DateCreated x) (OofShard x).
Definition set_Items v (x : t) : t :=
  mk (OrderUID x) (TrackNumber x) (Entry x) (Delivery x) (Payment x) v
    (Locale x) (InternalSignature x) (CustomerID x) (DeliveryService x)
    (Shardkey x) (SmID x) (DateCreated x) (OofShard x).
Definition set_Locale v (x : t) : t :=
  mk (OrderUID x) (TrackNumber x) (Entry x) (Delivery x) (Payment x)
    (Items x) v (InternalSignature x) (CustomerID x) (DeliveryService x)
    (Shardkey x) (SmID x) (DateCreated x) (OofShard x).
Definition set_InternalSignature v (x : t) : t :=
  mk (OrderUID x) (TrackNumber x) (Entry x) (Delivery x) (Payment x)
    (Items x) (Locale x) v (CustomerID x) (DeliveryService x)
    (Shardkey x) (SmID x) (DateCreated x) (OofShard x).
Definition set_CustomerID v (x : t) : t :=
  mk (OrderUID x) (TrackNumber x) (Entry x) (Delivery x) (Payment x)
    (Items x) (Locale x) (InternalSignature x) v (DeliveryService x)
    (Shardkey x) (SmID x) (DateCreated x) (OofShard x).
Definition set_DeliveryService v (x : t) : t :=
  mk (OrderUID x) (TrackNumber x) (Entry x) (Delivery x) (Payment x)
    (Items x) (Locale x) (InternalSignature x) (CustomerID x) v
    (Shardkey x) (SmID x) (DateCreated x) (OofShard x).
Definition set_Shardkey v (x : t) : t :=
  mk (OrderUID x) (TrackNumber x) (Entry x) (Delivery x) (Payment x)
    (Items x) (Locale x) (InternalSignature x) (CustomerID x)
    (DeliveryService x) v (SmID x) (DateCreated x) (OofShard x).
Definition set_SmID v (x : t) : t :=
  mk (OrderUID x) (TrackNumber x) (Entry x) (Delivery x) (Payment x)
    (Items x) (Locale x) (InternalSignature x) (CustomerID x)
    (DeliveryService x) (Shardkey x) v (DateCreated x) (OofShard x).
Definition set_DateCreated v (x : t) : t :=
  mk (OrderUID x) (TrackNumber x) (Entry x) (Delivery x) (Payment x)
    (Items x) (Locale x) (InternalSignature x) (CustomerID x)
    (DeliveryService x) (Shardkey x) (SmID x) v (OofShard x).
Definition set_OofShard v (x : t) : t :=
  mk (OrderUID x) (TrackNumber x) (Entry x) (Delivery x) (Payment x)
    (Items x) (Locale x) (InternalSignature x) (CustomerID x)
    (DeliveryService x) (Shardkey x) (SmID x) (DateCreated x) v.
End Order.

#[export] Existing Instance Order.eq_dec.
