(* ===== verification/Json.v ===== *)
(** * JSON values and [encoding/json] on the model's structs

    The program converts orders to and from JSON in two places: the Kafka
    consumer decodes every message with [json.Unmarshal(msg.Value, &order)]
    ([consumer.go]), and [orderRepo] stores the nested [Delivery],
    [Payment] and [Items] as JSONB ([json.Marshal] in [SaveOrder], and
    [json.Unmarshal] with the error ignored in [GetOrderByUID]).

    A JSON text is modelled by its value ([json]); a number is an integer
    ([JNumber]) or, with a fraction or an exponent, its text
    ([JFraction]), which no [int] field accepts.
    Decoding follows Go's [decodeState] on a value that already exists:
    [null] leaves the target unchanged; an object is read key by key, a key
    selects the field whose tag equals it up to [foldName] (unknown keys
    are skipped, a repeated key decodes again into the same field); a value
    of the wrong kind, or an integer outside [int64], leaves the field
    unchanged and records an error, and decoding goes on.  A decoder
    returns the new value and [true] when no error was recorded. *)

From S2P Require Import Prelude Model.
From Stdlib Require Import Ascii.

Inductive json : Type :=
| JNull
| JBool (b : bool)
| JNumber (z : Z)
| JFraction (lit : string)   (** a number with a fraction or an exponent, [1.5], [1e3] *)
| JString (s : string)
| JArray (vs : list json)
| JObject (kvs : list (string * json)).

(** ** Field names

    [foldName] ([encoding/json/fold.go]) maps ASCII lower case to upper
    case; the model keeps every other byte. *)

Definition ascii_upper (c : ascii) : ascii :=
  let n := nat_of_ascii c in
  if (97 <=? n) && (n <=? 122) then ascii_of_nat (n - 32) else c.

Fixpoint foldName (s : string) : string :=
  match s with
  | EmptyString => EmptyString
  | String c s' => String (ascii_upper c) (foldName s')
  end.

(** The key [k] of an object selects the field tagged [tag]. *)
Definition key_is (tag k : string) : bool := String.eqb (foldName k) (foldName tag).

(** ** Decoders: [json -> A -> A * bool] *)

Definition Decoder (A : Type) : Type := json -> A -> A * bool.

Definition decode_string : Decoder string := fun j cur =>
  match j with
  | JNull => (cur, true)
  | JString s => (s, true)
  | _ => (cur, false)
  end.

(** An [int] field: a number outside [int64] ([v.OverflowInt]), or one
    with a fraction or an exponent ([strconv.ParseInt] fails), is an
    [UnmarshalTypeError]. *)
Definition decode_int : Decoder Z := fun j cur =>
  match j with
  | JNull => (cur, true)
  | JNumber z => (if in_int64 z then z else cur, in_int64 z)
  | _ => (cur, false)
  end.

(** [Time.UnmarshalJSON]: [null] is a no-op; a string must pass Go's
    RFC 3339 check, whose failure aborts [json.Unmarshal]; anything else
    is an error.  The text is kept as is. *)
Definition decode_time : Decoder string := fun j cur =>
  match j with
  | JNull => (cur, true)
  | JString s => if rfc3339 s then (s, true) else (cur, false)
  | _ => (cur, false)
  end.

(** One field of a struct: its tag, how to read it and how to assign it. *)
Record field (A : Type) := Field {
  tag : string;
  run : json -> A -> A * bool }.
Arguments Field {A} tag run.
Arguments tag {A} f.
Arguments run {A} f.

Definition fld {A F} (t : string) (get : A -> F) (set : F -> A -> A)
    (dec : Decoder F) : field A :=
  Field t (fun j a => let '(x, ok) := dec j (get a) in (set x a, ok)).

(** The field a key selects, if any. *)
Fixpoint select {A} (fs : list (field A)) (k : string) : option (field A) :=
  match fs with
  | [] => None
  | f :: fs' => if key_is (tag f) k then Some f else select fs' k
  end.

(** One key of an object: [d.object]'s loop body. *)
Definition obj_step {A} (fs : list (field A)) (acc : A * bool) (kv : string * json)
    : A * bool :=
  let '(a, ok) := acc in
  let '(k, v) := kv in
  match select fs k with
  | Some f => let '(a', ok') := run f v a in (a', ok && ok')
  | None => (a, ok)
  end.

(** [d.object]: decode each key of the object in order. *)
Definition decode_object {A} (fs : list (field A)) : Decoder A := fun j cur =>
  match j with
  | JNull => (cur, true)
  | JObject kvs => foldl (obj_step fs) (cur, true) kvs
  | _ => (cur, false)
  end.

(** [d.array] into a slice: [null] gives the nil slice; the elements are
    decoded in order, each from the zero element. *)
Definition decode_slice {A} (zero : A) (dec : Decoder A) : Decoder (list A) :=
  fun j cur =>
  match j with
  | JNull => ([], true)
  | JArray vs =>
      foldr (fun v '(xs, ok) => let '(x, ok') := dec v zero in (x :: xs, ok' && ok))
            ([], true) vs
  | _ => (cur, false)
  end.

(** ** The model's structs: tags, decoders and [json.Marshal] *)

Definition delivery_fields : list (field Delivery.t) := [
  fld "name" Delivery.Name Delivery.set_Name decode_string;
  fld "phone" Delivery.Phone Delivery.set_Phone decode_string;
  fld "zip" Delivery.Zip Delivery.set_Zip decode_string;
  fld "city" Delivery.City Delivery.set_City decode_string;
  fld "address" Delivery.Address Delivery.set_Address decode_string;
  fld "region" Delivery.Region Delivery.set_Region decode_string;
  fld "email" Delivery.Email Delivery.set_Email decode_string].

Definition payment_fields : list (field Payment.t) := [
  fld "transaction" Payment.Transaction Payment.set_Transaction decode_string;
  fld "currency" Payment.Currency Payment.set_Currency decode_string;
  fld "provider" Payment.Provider Payment.set_Provider decode_string;
  fld "amount" Payment.Amount Payment.set_Amount decode_int;
  fld "payment_dt" Payment.PaymentDT Payment.set_PaymentDT decode_int;
  fld "bank" Payment.Bank Payment.set_Bank decode_string;
  fld "delivery_cost" Payment.DeliveryCost Payment.set_DeliveryCost decode_int;
  fld "goods_total" Payment.GoodsTotal Payment.set_GoodsTotal decode_int].

Definition item_fields : list (field Item.t) := [
  fld "chrt_id" Item.ChrtID Item.set_ChrtID decode_int;
  fld "track_number" Item.TrackNumber Item.set_TrackNumber decode_string;
  fld "price" Item.Price Item.set_Price decode_int;
  fld "rid" Item.Rid Item.set_Rid decode_string;
  fld "name" Item.Name Item.set_Name decode_string;
  fld "sale" Item.Sale Item.set_Sale decode_int;
  fld "size" Item.Size Item.set_Size decode_string;
  fld "total_price" Item.TotalPrice Item.set_TotalPrice decode_int;
  fld "nm_id" Item.NmID Item.set_NmID decode_int;
  fld "brand" Item.Brand Item.set_Brand decode_string;
  fld "status" Item.Status Item.set_Status decode_int].

Definition decode_delivery : Decoder Delivery.t := decode_object delivery_fields.
Definition decode_payment : Decoder Payment.t := decode_object payment_fields.
Definition decode_item : Decoder Item.t := decode_object item_fields.
Definition decode_items : Decoder (list Item.t) := decode_slice Item.zero decode_item.

Definition order_fields : list (field Order.t) := [
  fld "order_uid" Order.OrderUID Order.set_OrderUID decode_string;
  fld "track_number" Order.TrackNumber Order.set_TrackNumber decode_string;
  fld "entry" Order.Entry Order.set_Entry decode_string;
  fld "delivery" Order.Delivery Order.set_Delivery decode_delivery;
  fld "payment" Order.Payment Order.set_Payment decode_payment;
  fld "items" Order.Items Order.set_Items decode_items;
  fld "locale" Order.Locale Order.set_Locale decode_string;
  fld "internal_signature" Order.InternalSignature Order.set_InternalSignature
      decode_string;
  fld "customer_id" Order.CustomerID Order.set_CustomerID decode_string;
  fld "delivery_service" Order.DeliveryService Order.set_DeliveryService
      decode_string;
  fld "shardkey" Order.Shardkey Order.set_Shardkey decode_string;
  fld "sm_id" Order.SmID Order.set_SmID decode_int;
  fld "date_created" Order.DateCreated Order.set_DateCreated decode_time;
  fld "oof_shard" Order.OofShard Order.set_OofShard decode_string].

Definition decode_order : Decoder Order.t := decode_object order_fields.

(** [json.Unmarshal(data, &v)] into a fresh variable [v]: the zero value
    decoded, or the error. *)
Definition Unmarshal {A} (dec : Decoder A) (zero : A) (j : json) : option A :=
  let '(a, ok) := dec j zero in if ok then Some a else None.

(** [json.Marshal]: the fields in declaration order, under their tags. *)
Definition encode_delivery (d : Delivery.t) : json :=
  JObject [("name", JString (Delivery.Name d)); ("phone", JString (Delivery.Phone d));
           ("zip", JString (Delivery.Zip d)); ("city", JString (Delivery.City d));
           ("address", JString (Delivery.Address d));
           ("region", JString (Delivery.Region d)); ("email", JString (Delivery.Email d))].

Definition encode_payment (p : Payment.t) : json :=
  JObject [("transaction", JString (Payment.Transaction p));
           ("currency", JString (Payment.Currency p));
           ("provider", JString (Payment.Provider p));
           ("amount", JNumber (Payment.Amount p));
           ("payment_dt", JNumber (Payment.PaymentDT p));
           ("bank", JString (Payment.Bank p));
           ("delivery_cost", JNumber (Payment.DeliveryCost p));
           ("goods_total", JNumber (Payment.GoodsTotal p))].

Definition encode_item (i : Item.t) : json :=
  JObject [("chrt_id", JNumber (Item.ChrtID i));
           ("track_number", JString (Item.TrackNumber i));
           ("price", JNumber (Item.Price i)); ("rid", JString (Item.Rid i));
           ("name", JString (Item.Name i)); ("sale", JNumber (Item.Sale i));
           ("size", JString (Item.Size i));
           ("total_price", JNumber (Item.TotalPrice i));
           ("nm_id", JNumber (Item.NmID i)); ("brand", JString (Item.Brand i));
           ("status", JNumber (Item.Status i))].

(** A slice marshals as an array; the model does not tell a nil slice
    ([null]) from an empty one ([[]]): both decode to the empty list. *)
Definition encode_items (xs : list Item.t) : json := JArray (map encode_item xs).

(** ** Round trips of the JSONB columns *)

Lemma decode_delivery_encode d cur :
  decode_delivery (encode_delivery d) cur = (d, true).
Proof. by destruct d. Qed.

Lemma decode_payment_encode p cur :
  Payment.wf p = true -> decode_payment (encode_payment p) cur = (p, true).
Proof.
  intros H. destruct p; unfold Payment.wf in H; cbn -[in_int64] in H; split_andb.
  cbv -[in_int64]. by rewrite_bounds.
Qed.

Lemma decode_item_encode i cur :
  Item.wf i = true -> decode_item (encode_item i) cur = (i, true).
Proof.
  intros H. destruct i; unfold Item.wf in H; cbn -[in_int64] in H; split_andb.
  cbv -[in_int64]. by rewrite_bounds.
Qed.

Lemma decode_items_encode xs cur :
  forallb Item.wf xs = true -> decode_items (encode_items xs) cur = (xs, true).
Proof.
  intros Hwf. unfold decode_items, decode_slice, encode_items.
  induction xs as [|x xs IH]; [done|]. cbn -[decode_item] in *. split_andb.
  rewrite IH by done. by rewrite decode_item_encode.
Qed.

(** ** Decoding keeps Go's [int] fields within 64 bits *)

Lemma select_elem {A} (fs : list (field A)) k f : select fs k = Some f -> f ∈ fs.
Proof.
  induction fs as [|g fs IH]; simpl; [done|].
  destruct (key_is (tag g) k); [intros [= ->]; left | intros; right; auto].
Qed.

Lemma fld_run_fst {A F} t (get : A -> F) set (dec : Decoder F) v x :
  (run (fld t get set dec) v x).1 = set (dec v (get x)).1 x.
Proof. simpl. by destruct (dec v (get x)). Qed.

(** ** Errors are kept

    [d.object] records the first error ([d.saveError]) and goes on: once
    a field has failed, the whole [Unmarshal] fails. *)

Lemma obj_steps_error {A} (fs : list (field A)) a kvs :
  (foldl (obj_step fs) (a, false) kvs).2 = false.
Proof.
  revert a. induction kvs as [|[k v] kvs IH]; intros a; simpl; [done|].
  destruct (select fs k) as [f|]; [|apply IH]. destruct (run f v a). apply IH.
Qed.

Lemma decode_object_error {A} (fs : list (field A)) kvs1 k v kvs2 f a :
  select fs k = Some f -> (forall x, (run f v x).2 = false) ->
  (decode_object fs (JObject (kvs1 ++ (k, v) :: kvs2)) a).2 = false.
Proof.
  intros Hs Hf. simpl. rewrite foldl_app.
  destruct (foldl (obj_step fs) (a, true) kvs1) as [a1 ok1]. simpl. rewrite Hs.
  specialize (Hf a1). destruct (run f v a1) as [a2 ok2]. simpl in Hf. subst ok2.
  rewrite andb_false_r. apply obj_steps_error.
Qed.

(** A key selects what its tag selects when they agree up to [foldName]. *)
Lemma select_key {A} (fs : list (field A)) tag k :
  key_is tag k = true -> select fs k = select fs tag.
Proof.
  unfold key_is. intros Hk%String.eqb_eq.
  induction fs as [|g fs IH]; simpl; [done|]. unfold key_is. by rewrite Hk, IH.
Qed.

Section preservation.
Context {A : Type} (P : A -> Prop).

(** A decoder [preserves P] when decoding into a value satisfying [P]
    gives a value satisfying [P], whatever the input. *)
Definition preserves (dec : Decoder A) : Prop :=
  forall j a, P a -> P (dec j a).1.

Lemma decode_object_preserves (fs : list (field A)) :
  Forall (fun f => preserves (run f)) fs -> preserves (decode_object fs).
Proof.
  intros HF j a Ha. destruct j as [| | | | |vs|kvs]; try done.
  simpl. generalize true as ok. revert a Ha.
  induction kvs as [|[k v] kvs IH]; intros a Ha ok; simpl; [done|].
  unfold obj_step at 1. destruct (select fs k) as [f|] eqn:Hs; [|by apply IH].
  pose proof (proj1 (Forall_forall _ _) HF f
    (proj1 (list_elem_of_In _ _) (select_elem _ _ _ Hs)) v a Ha) as Hf.
  destruct (run f v a) as [a' ok']. by apply IH.
Qed.

Lemma decode_slice_preserves (zero : A) (dec : Decoder A) j cur :
  P zero -> preserves dec -> Forall P cur -> Forall P (decode_slice zero dec j cur).1.
Proof.
  intros Hz Hd Hcur. destruct j as [| | | | |vs|kvs]; try done; simpl.
  induction vs as [|v vs IH]; simpl; [constructor|].
  destruct (foldr _ _ vs) as [xs ok]. specialize (Hd v zero Hz).
  destruct (dec v zero) as [x ok']. by constructor.
Qed.
End preservation.

Lemma decode_int_bound j cur :
  in_int64 cur = true -> in_int64 (decode_int j cur).1 = true.
Proof. destruct j; simpl; try done. by destruct (in_int64 z) eqn:E. Qed.

(** Discharge the field obligations of [decode_object_preserves]: a field
    assignment keeps [wf] when the field is a string, or when the new
    value is an [int] produced by [decode_int]. *)
Ltac field_obligations :=
  repeat constructor; intros ? x Hx; rewrite fld_run_fst;
  destruct x; unfold Payment.wf, Item.wf, Order.wf in *; cbn -[in_int64 forallb] in *;
  split_andb; rewrite ?decode_int_bound by assumption; rewrite_bounds;
  rewrite ?andb_true_r; try done.

Lemma decode_payment_wf : preserves (fun p => Payment.wf p = true) decode_payment.
Proof. apply decode_object_preserves. field_obligations. Qed.

Lemma decode_item_wf : preserves (fun i => Item.wf i = true) decode_item.
Proof. apply decode_object_preserves. field_obligations. Qed.

Lemma decode_items_wf :
  preserves (fun xs => forallb Item.wf xs = true) decode_items.
Proof.
  intros j xs Hxs.
  assert (Forall (fun i => Item.wf i = true) (decode_items j xs).1) as HF.
  { apply decode_slice_preserves; [done|apply decode_item_wf|].
    apply Forall_forall. by apply forallb_forall. }
  apply forallb_forall. by apply Forall_forall.
Qed.

Lemma decode_time_valid j cur : rfc3339 cur = true -> rfc3339 (decode_time j cur).1 = true.
Proof. destruct j; simpl; try done. by destruct (rfc3339 s) eqn:E. Qed.

Lemma decode_order_wf : preserves (fun o => Order.wf o = true) decode_order.
Proof.
  apply decode_object_preserves.
  repeat constructor; intros ? x Hx; rewrite fld_run_fst;
    destruct x; unfold Order.wf in *; cbn -[in_int64 forallb Payment.wf rfc3339] in *;
    rewrite !andb_true_iff in *; destruct_and?; (split; [split; [split|]|]);
    first [assumption | apply decode_payment_wf; assumption | apply decode_items_wf; assumption
          | apply decode_int_bound; assumption | apply decode_time_valid; assumption].
Qed.
