(* ===== verification/Store.v ===== *)
(** * The durable store: table [orders] and [orderRepo]

    [repository.OrderRepository] ([order_repo.go], lines 15-19) is the
    interface the service is written against: the class [OrderRepository]
    below.  Its PostgreSQL implementation [orderRepo] is modelled in
    [Module PgRepo] over an explicit database state [DB]:
    - [rows]: table [orders] of [db.go], one [Row] per primary key
      [order_uid], its columns as [createTables] declares them;
    - [faults]: the environment's answer to each round trip to the server,
      in program order ([None]: it succeeds; [Some e]: it fails with [e],
      e.g. a lost connection or the expired deadline of the caller's
      context);
    - [next_uuid]: the state of [uuid.NewString].

    The class [RepositoryLaws] states what the service needs of any
    repository: a view [stored] of the orders a fault-free read returns, how
    a save changes it, and that reads do not.  [PgRepo] satisfies it
    ([pg_laws]). *)

From S2P Require Import Prelude Model Json.
From stdpp Require Import pretty.

(** ** Errors *)

(** What the database driver reports. *)
Inductive db_error : Type :=
| DbConnection                 (** the round trip failed (network, closed pool) *)
| DbDeadline                   (** [context deadline exceeded] *)
| DbNoRows                     (** [pgx.ErrNoRows]: [QueryRow] found nothing *)
| DbPg (code : string)         (** a [*pgconn.PgError] with its SQLSTATE *)
| DbEncode (column : string).  (** pgx could not encode an argument *)

#[export] Instance db_error_eq_dec : EqDecision db_error.
Proof. solve_decision. Defined.

(** The [error] values [orderRepo] returns. *)
Inductive repo_error : Type :=
| ErrDb (e : db_error)                 (** returned as the driver gave it *)
| ErrAlreadyExists (uid : string)      (** ["order with uid %s already exists"] *)
| ErrSaveFailed (e : db_error).        (** ["failed to save order: %w"] *)

#[export] Instance repo_error_eq_dec : EqDecision repo_error.
Proof. solve_decision. Defined.

(** ** The interface [repository.OrderRepository] *)

Class OrderRepository (W : Type) := {
  SaveOrder : Order.t -> StM W repo_error (string * Order.t);
  GetOrderByUID : string -> StM W repo_error Order.t;
  GetAllOrders : StM W repo_error (list Order.t) }.

(** [SaveOrder] takes [*model.Order] and may assign its [OrderUID]; the
    model returns the order as the caller sees it afterwards, next to the
    identifier Go returns. *)

(** ** What the service relies on

    [stored w] is what a fault-free [GetOrderByUID] returns for each key;
    [upsert_view old o] is what it returns after [o] is saved over [old].
    [winv] is the repository's own invariant.  Every operation keeps
    [winv]; reads leave [stored] alone; a failed save leaves it alone; a
    successful save of a well-formed order writes [upsert_view] under the
    order's (possibly generated, never empty) identifier. *)
Class RepositoryLaws (W : Type) `{OrderRepository W} := {
  winv : W -> Prop;
  stored : W -> gmap string Order.t;
  upsert_view : option Order.t -> Order.t -> Order.t;
  upsert_view_new : forall o, upsert_view None o = o;
  save_spec : forall o w w' r,
    winv w -> Order.wf o = true -> SaveOrder o w = (w', r) ->
    winv w' /\
    match r with
    | Ok (uid, o') =>
        uid = Order.OrderUID o' /\ uid <> "" /\
        (Order.OrderUID o <> "" -> o' = o) /\
        stored w' = <[uid := upsert_view (stored w !! uid) o']> (stored w)
    | Err _ => stored w' = stored w
    end;
  get_spec : forall uid w w' r,
    winv w -> GetOrderByUID uid w = (w', r) ->
    winv w' /\ stored w' = stored w /\
    (forall o, r = Ok o -> stored w !! uid = Some o);
  all_spec : forall w w' r,
    winv w -> GetAllOrders w = (w', r) ->
    winv w' /\ stored w' = stored w /\
    (forall os, r = Ok os -> Forall (fun o => stored w !! Order.OrderUID o = Some o) os) }.

(** ** The table *)

Record Row := {
  order_uid : string; track_number : string; entry : string;
  delivery : json; payment : json; items : json;
  locale : string; internal_signature : string; customer_id : string;
  delivery_service : string; shardkey : string; sm_id : Z;
  date_created : string; oof_shard : string }.

Record DB := {
  rows : gmap string Row;
  faults : list (option db_error);
  next_uuid : N }.

Module PgRepo.

(** One round trip to the server: the next entry of the fault script. *)
Definition roundtrip : StM DB db_error unit := fun db =>
  match faults db with
  | [] => (db, Ok tt)
  | f :: fs =>
      let db' := {| rows := rows db; faults := fs; next_uuid := next_uuid db |} in
      match f with None => (db', Ok tt) | Some e => (db', Err e) end
  end.

(** [uuid.NewString()]: a fresh, non-empty identifier. *)
Definition uuid_string (n : N) : string := "uuid-" +:+ pretty n.

Definition NewString : StM DB db_error string := fun db =>
  ({| rows := rows db; faults := faults db; next_uuid := N.succ (next_uuid db) |},
   Ok (uuid_string (next_uuid db))).

(** The arguments [$1 .. $14] of the [INSERT]: scalars as they are, the
    nested structs through [json.Marshal]. *)
Definition order_row (o : Order.t) : Row := {|
  order_uid := Order.OrderUID o; track_number := Order.TrackNumber o;
  entry := Order.Entry o;
  delivery := encode_delivery (Order.Delivery o);
  payment := encode_payment (Order.Payment o);
  items := encode_items (Order.Items o);
  locale := Order.Locale o; internal_signature := Order.InternalSignature o;
  customer_id := Order.CustomerID o; delivery_service := Order.DeliveryService o;
  shardkey := Order.Shardkey o; sm_id := Order.SmID o;
  date_created := Order.DateCreated o; oof_shard := Order.OofShard o |}.

(** The column types of [createTables] that a value can violate:
    [VARCHAR(n)] (SQLSTATE 22001, [string_data_right_truncation]).
    PostgreSQL counts characters; the model counts bytes, which is the same
    for ASCII text. *)
Definition varchar_columns (r : Row) : list (string * nat) := [
  (order_uid r, 255); (track_number r, 255); (entry r, 50);
  (locale r, 10); (internal_signature r, 255); (customer_id r, 255);
  (delivery_service r, 100); (shardkey r, 50); (oof_shard r, 50)].

Definition fits (r : Row) : bool :=
  forallb (fun '(s, n) => String.length s <=? n) (varchar_columns r).

(** [ON CONFLICT (order_uid) DO UPDATE SET track_number, entry, delivery,
    payment, items, date_created = EXCLUDED...]: the other eight columns
    keep their old values. *)
Definition on_conflict (old new : Row) : Row := {|
  order_uid := order_uid old; track_number := track_number new;
  entry := entry new; delivery := delivery new; payment := payment new;
  items := items new; locale := locale old;
  internal_signature := internal_signature old; customer_id := customer_id old;
  delivery_service := delivery_service old; shardkey := shardkey old;
  sm_id := sm_id old; date_created := date_created new;
  oof_shard := oof_shard old |}.

Definition upsert (r : Row) (t : gmap string Row) : gmap string Row :=
  match t !! order_uid r with
  | None => <[order_uid r := r]> t
  | Some old => <[order_uid r := on_conflict old r]> t
  end.

(** [r.db.Exec(ctx, query, ...)] of the upsert.  pgx encodes [sm_id]
    for the [INTEGER] column before anything is sent; the server then
    checks the [VARCHAR] lengths and applies the upsert. *)
Definition exec_upsert (r : Row) : StM DB db_error unit :=
  if negb (in_int32 (sm_id r)) then fail (DbEncode "sm_id") else
  let* _ := roundtrip in
  if negb (fits r) then fail (DbPg "22001") else
  modify (fun db => {| rows := upsert r (rows db); faults := faults db;
                       next_uuid := next_uuid db |}).

(** The error [SaveOrder] returns for a failed [Exec]. *)
Definition save_error (uid : string) (e : db_error) : repo_error :=
  match e with
  | DbPg "23505" => ErrAlreadyExists uid
  | _ => ErrSaveFailed e
  end.

Definition lift_db {A} (m : StM DB db_error A) (f : db_error -> repo_error)
    : StM DB repo_error A :=
  fun db => let '(db', r) := m db in
            (db', match r with Ok a => Ok a | Err e => Err (f e) end).

(** [orderRepo.SaveOrder]. *)
Definition SaveOrder (o : Order.t) : StM DB repo_error (string * Order.t) :=
  let* o := (if String.eqb (Order.OrderUID o) ""
             then let* uid := lift_db NewString ErrDb in
                  ret (Order.set_OrderUID uid o)
             else ret o) in
  let* _ := lift_db (exec_upsert (order_row o)) (save_error (Order.OrderUID o)) in
  ret (Order.OrderUID o, o).

(** The [Scan] of a row and the three [json.Unmarshal] calls whose
    errors are ignored: each decodes into the zero value of its field. *)
Definition row_order (r : Row) : Order.t :=
  Order.mk (order_uid r) (track_number r) (entry r)
    (decode_delivery (delivery r) Delivery.zero).1
    (decode_payment (payment r) Payment.zero).1
    (decode_items (items r) []).1
    (locale r) (internal_signature r) (customer_id r) (delivery_service r)
    (shardkey r) (sm_id r) (date_created r) (oof_shard r).

(** [orderRepo.GetOrderByUID]. *)
Definition GetOrderByUID (uid : string) : StM DB repo_error Order.t :=
  let* _ := lift_db roundtrip ErrDb in
  let* db := get in
  match rows db !! uid with
  | None => fail (ErrDb DbNoRows)
  | Some r => ret (row_order r)
  end.

(** The loop of [GetAllOrders] over the identifiers the query returned:
    a failed [rows.Next()] ends it silently ([rows.Err()] is never
    consulted); a failed [GetOrderByUID] skips the row. *)
Fixpoint scan_rows (uids : list string) (acc : list Order.t)
    : StM DB repo_error (list Order.t) :=
  match uids with
  | [] => ret acc
  | uid :: uids' => fun db =>
      match roundtrip db with
      | (db', Err _) => (db', Ok acc)
      | (db', Ok _) =>
          match GetOrderByUID uid db' with
          | (db'', Err _) => scan_rows uids' acc db''
          | (db'', Ok o) => scan_rows uids' (acc ++ [o]) db''
          end
      end
  end.

(** [orderRepo.GetAllOrders]: [SELECT order_uid FROM orders], in the
    table's order (here the order of [map_to_list]). *)
Definition GetAllOrders : StM DB repo_error (list Order.t) :=
  let* _ := lift_db roundtrip ErrDb in
  let* db := get in
  scan_rows (map fst (map_to_list (rows db))) [].

End PgRepo.

#[export] Instance pg_repo : OrderRepository DB := {
  SaveOrder := PgRepo.SaveOrder;
  GetOrderByUID := PgRepo.GetOrderByUID;
  GetAllOrders := PgRepo.GetAllOrders }.

(** ** [PgRepo] meets the contract *)

Section pg_laws.
Import PgRepo.

(** Every row sits under its own primary key. *)
Definition keyed (t : gmap string Row) : Prop :=
  forall k r, t !! k = Some r -> order_uid r = k.
Definition pg_winv (db : DB) : Prop := keyed (rows db).

(** What [GetOrderByUID] reads back from each row. *)
Definition pg_stored (db : DB) : gmap string Order.t := row_order <$> rows db.

(** The order a reader sees after [new] was upserted over [old]: the six
    columns of the [SET] clause from [new], the rest from [old]. *)
Definition merge_order (old new : Order.t) : Order.t :=
  Order.mk (Order.OrderUID old) (Order.TrackNumber new) (Order.Entry new)
    (Order.Delivery new) (Order.Payment new) (Order.Items new)
    (Order.Locale old) (Order.InternalSignature old) (Order.CustomerID old)
    (Order.DeliveryService old) (Order.Shardkey old) (Order.SmID old)
    (Order.DateCreated new) (Order.OofShard old).

Definition pg_upsert_view (old : option Order.t) (o : Order.t) : Order.t :=
  match old with None => o | Some old => merge_order old o end.

Lemma row_order_order_row o :
  Order.wf o = true -> row_order (order_row o) = o.
Proof.
  intros Hwf. destruct o. unfold Order.wf in Hwf; simpl in Hwf; split_andb.
  unfold row_order, order_row; cbn -[decode_delivery decode_payment decode_items].
  rewrite decode_delivery_encode, decode_payment_encode, decode_items_encode by done.
  done.
Qed.

Lemma row_order_on_conflict old o :
  Order.wf o = true ->
  row_order (on_conflict old (order_row o)) = merge_order (row_order old) o.
Proof.
  intros Hwf. destruct o. unfold Order.wf in Hwf; simpl in Hwf; split_andb.
  unfold row_order, order_row, on_conflict, merge_order;
  cbn -[decode_delivery decode_payment decode_items].
  rewrite decode_delivery_encode, decode_payment_encode, decode_items_encode by done.
  done.
Qed.

Lemma roundtrip_spec db db' r :
  roundtrip db = (db', r) -> rows db' = rows db /\ next_uuid db' = next_uuid db.
Proof.
  unfold roundtrip. destruct (faults db) as [|[e|] fs]; by intros [= <- _].
Qed.

Lemma exec_upsert_spec row db db' r :
  exec_upsert row db = (db', r) ->
  rows db' = (if is_ok r then upsert row (rows db) else rows db).
Proof.
  unfold exec_upsert. destruct (in_int32 (sm_id row)); simpl; [|by intros [= <- <-]].
  unfold bind. destruct (roundtrip db) as [db1 [[]|e]] eqn:Hrt;
    apply roundtrip_spec in Hrt as [Hrows _]; [|by intros [= <- <-]].
  destruct (fits row); simpl; intros [= <- <-]; by rewrite Hrows.
Qed.

Lemma GetOrderByUID_spec uid db db' r :
  GetOrderByUID uid db = (db', r) ->
  rows db' = rows db /\
  (forall o, r = Ok o -> exists row, rows db !! uid = Some row /\ o = row_order row).
Proof.
  unfold GetOrderByUID, lift_db, bind, get.
  destruct (roundtrip db) as [db1 [[]|e]] eqn:Hrt;
    apply roundtrip_spec in Hrt as [Hrows _]; [|by intros [= <- <-]].
  rewrite <- Hrows. destruct (rows db1 !! uid) eqn:E; intros [= <- <-]; naive_solver.
Qed.
Lemma scan_rows_spec uids acc db db' r :
  scan_rows uids acc db = (db', r) ->
  rows db' = rows db /\
  exists os, r = Ok os /\
    (Forall (fun o => exists k row, rows db !! k = Some row /\ o = row_order row) acc ->
     Forall (fun o => exists k row, rows db !! k = Some row /\ o = row_order row) os).
Proof.
  revert acc db. induction uids as [|uid uids IH]; intros acc db; simpl.
  { intros [= <- <-]. eauto. }
  destruct (roundtrip db) as [db1 [[]|e]] eqn:Hrt;
    apply roundtrip_spec in Hrt as [Hrows1 _]; [|intros [= <- <-]; eauto].
  destruct (GetOrderByUID uid db1) as [db2 [o|e]] eqn:Hget;
    apply GetOrderByUID_spec in Hget as [Hrows2 Ho]; intros Hscan;
    apply IH in Hscan as [Hrows3 [os [-> Hos]]];
    rewrite Hrows2, Hrows1 in *; (split; [done|]); exists os; (split; [done|]);
    intros Hacc; apply Hos; [|done].
  apply Forall_app; split; [done|]. constructor; [|done].
  destruct (Ho o eq_refl) as [row [Hrow ->]]. eauto.
Qed.

(** [GetAllOrders] fails only when the first query does: a failure while
    iterating yields the orders read so far, and no error. *)
Lemma GetAllOrders_spec db db' r :
  GetAllOrders db = (db', r) ->
  rows db' = rows db /\
  (forall e, r = Err e -> exists e', roundtrip db = (db', Err e') /\ e = ErrDb e') /\
  (forall os, r = Ok os ->
     Forall (fun o => exists k row, rows db !! k = Some row /\ o = row_order row) os).
Proof.
  unfold GetAllOrders, lift_db, bind, get.
  destruct (roundtrip db) as [db1 [[]|e]] eqn:Hrt;
    pose proof (roundtrip_spec _ _ _ Hrt) as [Hrows1 _]; [|intros [= <- <-]; naive_solver].
  intros Hscan. apply scan_rows_spec in Hscan as [Hrows2 [os [-> Hos]]].
  split; [congruence|]. split; [done|]. intros ? [= <-].
  rewrite <- Hrows1. by apply Hos.
Qed.

(** The order [SaveOrder] writes: [o], or [o] with a fresh identifier
    when it had none. *)
Definition saved_order (o : Order.t) (db : DB) : Order.t :=
  if String.eqb (Order.OrderUID o) "" then Order.set_OrderUID (uuid_string (next_uuid db)) o
  else o.

Lemma SaveOrder_spec o db db' r :
  SaveOrder o db = (db', r) ->
  rows db' = (if is_ok r then upsert (order_row (saved_order o db)) (rows db) else rows db) /\
  (forall x, r = Ok x -> x = (Order.OrderUID (saved_order o db), saved_order o db)).
Proof.
  unfold SaveOrder, saved_order, bind, lift_db, ret, NewString.
  destruct (String.eqb (Order.OrderUID o) "");
    match goal with |- context [exec_upsert ?row ?d] =>
      destruct (exec_upsert row d) as [db1 [[]|e]] eqn:Hex end;
    apply exec_upsert_spec in Hex; intros [= <- <-]; simpl in *; split; naive_solver.
Qed.
Lemma upsert_keyed row t : keyed t -> keyed (upsert row t).
Proof.
  intros Ht k r. unfold upsert.
  destruct (t !! order_uid row) as [old|] eqn:Hold;
    rewrite lookup_insert; case_decide; intros; simplify_eq; eauto.
  simpl. by apply Ht.
Qed.

Lemma stored_upsert o t :
  keyed t -> Order.wf o = true ->
  row_order <$> upsert (order_row o) t =
  <[Order.OrderUID o := pg_upsert_view ((row_order <$> t) !! Order.OrderUID o) o]>
    (row_order <$> t).
Proof.
  intros Ht Hwf. unfold upsert. rewrite lookup_fmap. simpl.
  destruct (t !! Order.OrderUID o) as [old|] eqn:Hold; simpl; rewrite fmap_insert.
  - by rewrite row_order_on_conflict.
  - by rewrite row_order_order_row.
Qed.

Lemma wf_set_OrderUID u o : Order.wf (Order.set_OrderUID u o) = Order.wf o.
Proof. by destruct o. Qed.

Lemma saved_order_uid o db : Order.OrderUID (saved_order o db) <> "".
Proof.
  unfold saved_order. destruct (String.eqb_spec (Order.OrderUID o) ""); [by destruct o|done].
Qed.

Lemma saved_order_wf o db : Order.wf (saved_order o db) = Order.wf o.
Proof. unfold saved_order. case_match; [apply wf_set_OrderUID|done]. Qed.

Lemma saved_order_given o db : Order.OrderUID o <> "" -> saved_order o db = o.
Proof. unfold saved_order. by destruct (String.eqb_spec (Order.OrderUID o) ""). Qed.

Lemma roundtrip_healthy db : faults db = [] -> roundtrip db = (db, Ok tt).
Proof. unfold roundtrip. by intros ->. Qed.

Lemma GetOrderByUID_healthy k db r :
  faults db = [] -> rows db !! k = Some r -> GetOrderByUID k db = (db, Ok (row_order r)).
Proof.
  intros Hf Hk. unfold GetOrderByUID, lift_db, bind, get, ret.
  rewrite roundtrip_healthy by done. by rewrite Hk.
Qed.

(** On a database that answers every round trip, an order whose [sm_id]
    and strings fit the columns is upserted. *)
Lemma SaveOrder_fits o db :
  faults db = [] -> in_int32 (Order.SmID o) = true -> fits (order_row (saved_order o db)) = true ->
  exists n, SaveOrder o db =
    ({| rows := upsert (order_row (saved_order o db)) (rows db); faults := []; next_uuid := n |},
     Ok (Order.OrderUID (saved_order o db), saved_order o db)).
Proof.
  intros Hf H32. unfold SaveOrder, saved_order, bind, ret, lift_db, NewString.
  destruct (String.eqb (Order.OrderUID o) ""); cbn -[in_int32 fits roundtrip upsert];
    unfold exec_upsert; cbn -[in_int32 fits roundtrip upsert];
    rewrite H32; intros Hfits; cbn -[fits roundtrip upsert]; unfold bind;
    rewrite roundtrip_healthy by (simpl; exact Hf); rewrite Hfits; simpl; rewrite ?Hf; eauto.
Qed.


Lemma keyed_row_order t k row :
  keyed t -> t !! k = Some row -> (row_order <$> t) !! Order.OrderUID (row_order row) = Some (row_order row).
Proof. intros Ht Hk. rewrite lookup_fmap. simpl. by rewrite (Ht _ _ Hk), Hk. Qed.
End pg_laws.

#[export] Program Instance pg_laws : RepositoryLaws DB := {
  winv := pg_winv;
  stored := pg_stored;
  upsert_view := pg_upsert_view }.
Next Obligation. done. Qed.
Next Obligation.
  intros o w w' r Hw Hwf Hsave. apply SaveOrder_spec in Hsave as [Hrows Hr].
  unfold pg_winv, pg_stored in *. rewrite Hrows.
  destruct r as [[uid o']|e]; simpl; [|done].
  injection (Hr _ eq_refl) as -> ->. split; [by apply upsert_keyed|].
  split; [done|]. split; [apply saved_order_uid|]. split; [apply saved_order_given|].
  apply stored_upsert; [done|]. by rewrite saved_order_wf.
Qed.
Next Obligation.
  intros uid w w' r Hw Hget. apply GetOrderByUID_spec in Hget as [Hrows Ho].
  unfold pg_winv, pg_stored in *. rewrite Hrows. do 2 (split; [done|]).
  intros o ->. destruct (Ho o eq_refl) as [row [Hrow ->]].
  rewrite lookup_fmap, Hrow. done.
Qed.
Next Obligation.
  intros w w' r Hw Hall. apply GetAllOrders_spec in Hall as [Hrows [_ Hos]].
  unfold pg_winv, pg_stored in *. rewrite Hrows. do 2 (split; [done|]).
  intros os ->. eapply Forall_impl; [by apply Hos|].
  intros o (k & row & Hrow & ->). by eapply keyed_row_order.
Qed.
