(* ===== verification/Response.v ===== *)
(** * The response projection: [modelToResponse] and [itemsToResponse]

    [order_service.go] (lines 96-144) never hands a [model.Order] to a
    caller; it copies it field by field into a [response.OrderResponse].
    The package [internal/dto/response] is not part of the sources at
    hand: its structs are reconstructed from the fields [modelToResponse]
    assigns, which are all that it has.  The projection keeps the
    identifier, track number, entry, delivery, payment, items, creation
    time and [OofShard]; it drops [Locale], [InternalSignature],
    [CustomerID], [DeliveryService], [Shardkey] and [SmID]. *)

From S2P Require Import Prelude Model.

Module DeliveryResponse.
Record t := mk {
  Name : string; Phone : string; Zip : string; City : string;
  Address : string; Region : string; Email : string }.
End DeliveryResponse.

Module PaymentResponse.
Record t := mk {
  Transaction : string; Currency : string; Provider : string;
  Amount : Z; PaymentDT : Z; Bank : string;
  DeliveryCost : Z; GoodsTotal : Z }.
End PaymentResponse.

Module ItemResponse.
Record t := mk {
  ChrtID : Z; TrackNumber : string; Price : Z; Rid : string;
  Name : string; Sale : Z; Size : string; TotalPrice : Z;
  NmID : Z; Brand : string; Status : Z }.
End ItemResponse.

Module OrderResponse.
Record t := mk {
  OrderUID : string; TrackNumber : string; Entry : string;
  Delivery : DeliveryResponse.t; Payment : PaymentResponse.t;
  Items : list ItemResponse.t; DateCreated : string; OofShard : string }.
End OrderResponse.

(** The body of the loop of [itemsToResponse]. *)
Definition itemToResponse (item : Item.t) : ItemResponse.t :=
  ItemResponse.mk (Item.ChrtID item) (Item.TrackNumber item) (Item.Price item)
    (Item.Rid item) (Item.Name item) (Item.Sale item) (Item.Size item)
    (Item.TotalPrice item) (Item.NmID item) (Item.Brand item) (Item.Status item).

(** [var responseItems []ItemResponse; for _, item := range items {
    responseItems = append(responseItems, ...) }]. *)
Definition itemsToResponse (items : list Item.t) : list ItemResponse.t :=
  foldl (fun responseItems item => responseItems ++ [itemToResponse item]) [] items.

Definition modelToResponse (order : Order.t) : OrderResponse.t :=
  OrderResponse.mk (Order.OrderUID order) (Order.TrackNumber order) (Order.Entry order)
    (let d := Order.Delivery order in
     DeliveryResponse.mk (Delivery.Name d) (Delivery.Phone d) (Delivery.Zip d)
       (Delivery.City d) (Delivery.Address d) (Delivery.Region d) (Delivery.Email d))
    (let p := Order.Payment order in
     PaymentResponse.mk (Payment.Transaction p) (Payment.Currency p)
       (Payment.Provider p) (Payment.Amount p) (Payment.PaymentDT p) (Payment.Bank p)
       (Payment.DeliveryCost p) (Payment.GoodsTotal p))
    (itemsToResponse (Order.Items order))
    (Order.DateCreated order) (Order.OofShard order).

(** ** The loop is a map *)

Lemma itemsToResponse_acc acc items :
  foldl (fun responseItems item => responseItems ++ [itemToResponse item]) acc items =
  acc ++ map itemToResponse items.
Proof.
  revert acc. induction items as [|i items IH]; intros acc; simpl.
  - by rewrite app_nil_r.
  - rewrite IH. by rewrite <- app_assoc.
Qed.

#[export] Instance itemToResponse_inj : Inj eq eq itemToResponse.
Proof. intros [] [] H. by injection H as -> -> -> -> -> -> -> -> -> -> ->. Qed.

(** ** What the projection keeps *)

(** The fields of an order a response carries. *)
Definition projected (o : Order.t) :=
  (Order.OrderUID o, Order.TrackNumber o, Order.Entry o, Order.Delivery o,
   Order.Payment o, Order.Items o, Order.DateCreated o, Order.OofShard o).

Lemma itemsToResponse_inj xs ys : itemsToResponse xs = itemsToResponse ys -> xs = ys.
Proof.
  unfold itemsToResponse. rewrite !itemsToResponse_acc. intros H. apply (inj (fmap itemToResponse)). exact H.
Qed.

(** C6: Two orders have the same response exactly when they agree on the
    projected fields. *)
Lemma modelToResponse_eq o1 o2 :
  modelToResponse o1 = modelToResponse o2 <-> projected o1 = projected o2.
Proof.
  split.
  - destruct o1 as [? ? ? [] [] ? ? ? ? ? ? ? ? ?], o2 as [? ? ? [] [] ? ? ? ? ? ? ? ? ?].
    unfold modelToResponse, projected; simpl.
    intros H; injection H as
      H1 H2 H3 H4 H5 H6 H7 H8 H9 H10 H11 H12 H13 H14 H15 H16 H17 H18 Hi H20 H21.
    apply itemsToResponse_inj in Hi. subst. reflexivity.
  - destruct o1, o2. unfold projected. simpl. intros H. by simplify_eq.
Qed.
