(* ===== verification/Service.v ===== *)
(** * The cache service: [orderService] ([order_service.go])

    [orderService] holds a repository and [cache map[string]*model.Order]
    behind one [sync.RWMutex].  Here its state is [Sys W]: the cache as a
    [gmap] and the state [W] of whatever implements
    [repository.OrderRepository].  Each method is one sequential step of
    that state; the lock only matters when steps interleave, which
    [Interleaving] models.  Logging is not modelled: it changes no state.

    The methods are written once, for any repository ([Section methods]);
    their theorems are proved first for any repository and then, where
    they need the contract [RepositoryLaws], against it; [pg_*] theorems
    instantiate them with PostgreSQL. *)

From S2P Require Import Prelude Model Json Store Response.

Record Sys (W : Type) := mkSys { cache : gmap string Order.t; repo : W }.
Arguments mkSys {W} cache repo.
Arguments cache {W} s.
Arguments repo {W} s.

(** The interface [service.OrderService] (lines 13-17) the consumer and
    the HTTP handler are written against. *)
Class OrderService (S : Type) := {
  CreateOrder : Order.t -> StM S repo_error unit;
  GetOrderByUID : string -> StM S repo_error OrderResponse.t;
  RestoreCacheFromDB : StM S repo_error unit }.

Module orderService.
Section methods.
Context {W : Type} `{OrderRepository W}.

(** A call on [s.repo]. *)
Definition with_repo {A} (m : StM W repo_error A) : StM (Sys W) repo_error A :=
  focus repo (fun w s => mkSys (cache s) w) m.

(** [s.cacheMu.Lock(); s.cache[k] = o; s.cacheMu.Unlock()]. *)
Definition cache_put (k : string) (o : Order.t) : StM (Sys W) repo_error unit :=
  modify (fun s => mkSys (<[k := o]> (cache s)) (repo s)).

(** [CreateOrder]: save first, and only then cache the order, under its
    identifier as [SaveOrder] left it. *)
Definition CreateOrder (order : Order.t) : StM (Sys W) repo_error unit :=
  let* saved := with_repo (Store.SaveOrder order) in
  let order := saved.2 in
  cache_put (Order.OrderUID order) order.

(** [GetOrderByUID]: a hit answers from the cache; a miss reads the
    repository and caches what it read. *)
Definition GetOrderByUID (orderUID : string) : StM (Sys W) repo_error OrderResponse.t :=
  let* s := get in
  match cache s !! orderUID with
  | Some cachedOrder => ret (modelToResponse cachedOrder)
  | None =>
      let* order := with_repo (Store.GetOrderByUID orderUID) in
      let* _ := cache_put orderUID order in
      ret (modelToResponse order)
  end.

(** [RestoreCacheFromDB]: one exclusive section inserting every order
    [GetAllOrders] returned; on its error the cache is untouched. *)
Definition RestoreCacheFromDB : StM (Sys W) repo_error unit :=
  let* orders := with_repo Store.GetAllOrders in
  modify (fun s => mkSys (insert_each Order.OrderUID orders (cache s)) (repo s)).

(** [NewOrderService]: an empty cache, then a restore whose error is
    only logged. *)
Definition NewOrderService (w : W) : Sys W :=
  (RestoreCacheFromDB (mkSys ∅ w)).1.
End methods.
End orderService.

#[export] Instance order_service {W} `{OrderRepository W} : OrderService (Sys W) := {
  CreateOrder := orderService.CreateOrder;
  GetOrderByUID := orderService.GetOrderByUID;
  RestoreCacheFromDB := orderService.RestoreCacheFromDB }.

(** ** The methods, branch by branch, for any repository *)

Section any_repository.
Context {W : Type} `{OrderRepository W}.
Import orderService.

Lemma CreateOrder_run o (s : Sys W) :
  CreateOrder o s =
  match Store.SaveOrder o (repo s) with
  | (w', Ok (_, o')) => (mkSys (<[Order.OrderUID o' := o']> (cache s)) w', Ok tt)
  | (w', Err e) => (mkSys (cache s) w', Err e)
  end.
Proof.
  unfold CreateOrder, with_repo, cache_put, focus, bind, modify.
  by destruct (Store.SaveOrder o (repo s)) as [w' [[uid o']|e]].
Qed.

Lemma GetOrderByUID_run k (s : Sys W) :
  GetOrderByUID k s =
  match cache s !! k with
  | Some o => (s, Ok (modelToResponse o))
  | None =>
      match Store.GetOrderByUID k (repo s) with
      | (w', Ok o) => (mkSys (<[k := o]> (cache s)) w', Ok (modelToResponse o))
      | (w', Err e) => (mkSys (cache s) w', Err e)
      end
  end.
Proof.
  unfold GetOrderByUID, with_repo, cache_put, focus, bind, modify, get, ret.
  destruct (cache s !! k); [done|].
  by destruct (Store.GetOrderByUID k (repo s)) as [w' [o|e]].
Qed.

Lemma RestoreCacheFromDB_run (s : Sys W) :
  RestoreCacheFromDB s =
  match Store.GetAllOrders (repo s) with
  | (w', Ok os) => (mkSys (insert_each Order.OrderUID os (cache s)) w', Ok tt)
  | (w', Err e) => (mkSys (cache s) w', Err e)
  end.
Proof.
  unfold RestoreCacheFromDB, with_repo, focus, bind, modify.
  by destruct (Store.GetAllOrders (repo s)) as [w' [os|e]].
Qed.
(** C2: A failed store write leaves the cache as it was. *)
Theorem CreateOrder_error_keeps_cache o (s s' : Sys W) e :
  CreateOrder o s = (s', Err e) -> cache s' = cache s.
Proof.
  rewrite CreateOrder_run.
  destruct (Store.SaveOrder o (repo s)) as [w' [[uid o']|e']]; by intros [= <- _].
Qed.

(** A successful [CreateOrder] is a successful store write followed by
    one cache insertion of the order the store wrote. *)
Theorem CreateOrder_write_through o (s s' : Sys W) u :
  CreateOrder o s = (s', Ok u) ->
  exists uid o', Store.SaveOrder o (repo s) = (repo s', Ok (uid, o')) /\
                 cache s' = <[Order.OrderUID o' := o']> (cache s).
Proof.
  rewrite CreateOrder_run.
  destruct (Store.SaveOrder o (repo s)) as [w' [[uid o']|e']]; intros [= <- _]; eauto.
Qed.

Lemma GetOrderByUID_hit k o (s : Sys W) :
  cache s !! k = Some o -> GetOrderByUID k s = (s, Ok (modelToResponse o)).
Proof. intros Hk. by rewrite GetOrderByUID_run, Hk. Qed.

(** C22: A miss that the store cannot answer changes no cache entry, whatever
    the store's error: a missing row and a failed round trip look alike. *)
Lemma GetOrderByUID_error_keeps_cache k (s s' : Sys W) e :
  GetOrderByUID k s = (s', Err e) -> cache s' = cache s /\ cache s !! k = None.
Proof.
  rewrite GetOrderByUID_run. destruct (cache s !! k); [done|].
  destruct (Store.GetOrderByUID k (repo s)) as [w' [o|e']]; by intros [= <- _].
Qed.

(** C17: No method removes a key from the cache: there is no eviction. *)
Theorem methods_never_evict (s : Sys W) k :
  is_Some (cache s !! k) ->
  (forall o, is_Some (cache (CreateOrder o s).1 !! k)) /\
  (forall uid, is_Some (cache (GetOrderByUID uid s).1 !! k)) /\
  is_Some (cache (RestoreCacheFromDB s).1 !! k).
Proof.
  intros Hk. split; [|split].
  - intros o. rewrite CreateOrder_run.
    destruct (Store.SaveOrder o (repo s)) as [w' [[uid o']|e']]; simpl; [|done].
    rewrite lookup_insert. by case_decide.
  - intros uid. rewrite GetOrderByUID_run. destruct (cache s !! uid); [done|].
    destruct (Store.GetOrderByUID uid (repo s)) as [w' [o'|e']]; simpl; [|done].
    rewrite lookup_insert. by case_decide.
  - rewrite RestoreCacheFromDB_run.
    destruct (Store.GetAllOrders (repo s)) as [w' [os|e']]; simpl; [|done].
    autorewrite with cache_rw. by destruct (last_with _ k os).
Qed.
End any_repository.

(** ** Coherence of the cache with the store

    Each method, called alone, keeps the cache coherent with the store.
    Calls that overlap are the subject of [Interleaving] and [CacheMu]:
    on distinct identifiers coherence survives every interleaving; on one
    identifier a lookup or an update racing an update can break it. *)

Section with_laws.
Context {W : Type} `{RepositoryLaws W}.
Import orderService.

(** Every cached order is what the store would return for its key,
    except that the store may have kept columns of an earlier version
    that the upsert does not update: the stored order is
    [upsert_view old o] for some earlier [old]. *)
Definition coherent (s : Sys W) : Prop :=
  winv (repo s) /\
  map_Forall (fun k o => exists old, stored (repo s) !! k = Some (upsert_view old o))
             (cache s).

Lemma coherent_empty_cache (w : W) : winv w -> coherent (mkSys ∅ w).
Proof. intros Hw. split; [done|]. apply map_Forall_empty. Qed.

Lemma coherent_insert_read (s : Sys W) w k o :
  coherent s -> winv w -> stored w = stored (repo s) -> stored w !! k = Some o ->
  coherent (mkSys (<[k := o]> (cache s)) w).
Proof.
  intros [_ Hc] Hw Hst Hk. split; [done|]. simpl.
  apply map_Forall_insert_2; [exists None; by rewrite upsert_view_new|].
  rewrite Hst. done.
Qed.

Theorem CreateOrder_coherent o (s s' : Sys W) r :
  coherent s -> Order.wf o = true -> CreateOrder o s = (s', r) -> coherent s'.
Proof.
  intros [Hw Hc] Hwf. rewrite CreateOrder_run.
  destruct (Store.SaveOrder o (repo s)) as [w' r'] eqn:Hsave.
  destruct (save_spec _ _ _ _ Hw Hwf Hsave) as [Hw' Hr'].
  destruct r' as [[uid o']|e]; intros [= <- _]; split; try done; simpl.
  - destruct Hr' as (-> & _ & _ & Hst). rewrite Hst.
    intros k x. rewrite lookup_insert. case_decide as Hk.
    + intros [= <-]. subst k. eexists. apply lookup_insert_eq.
    + intros Hx. destruct (Hc k x Hx) as [old Hold].
      exists old. by rewrite lookup_insert_ne.
  - by rewrite Hr'.
Qed.

(** A lookup, hit or miss, success or failure, keeps the cache coherent
    with the store. *)
Theorem GetOrderByUID_coherent k (s s' : Sys W) r :
  coherent s -> GetOrderByUID k s = (s', r) -> coherent s'.
Proof.
  intros Hs. pose proof Hs as [Hw Hc]. rewrite GetOrderByUID_run.
  destruct (cache s !! k); [by intros [= <- _]|].
  destruct (Store.GetOrderByUID k (repo s)) as [w' r'] eqn:Hget.
  destruct (get_spec _ _ _ _ Hw Hget) as (Hw' & Hst & Ho).
  destruct r' as [o|e]; intros [= <- _].
  - apply (coherent_insert_read s); [done..|]. rewrite Hst. by apply Ho.
  - split; [done|]. simpl. by rewrite Hst.
Qed.

Theorem RestoreCacheFromDB_coherent (s s' : Sys W) r :
  coherent s -> RestoreCacheFromDB s = (s', r) -> coherent s'.
Proof.
  intros [Hw Hc]. rewrite RestoreCacheFromDB_run.
  destruct (Store.GetAllOrders (repo s)) as [w' r'] eqn:Hall.
  destruct (all_spec _ _ _ Hw Hall) as (Hw' & Hst & Hos).
  destruct r' as [os|e]; intros [= <- _]; split; try done; simpl; rewrite Hst; [|done].
  intros k o Hk. apply insert_each_elem in Hk as [Hk|[<- Hin]]; [by apply Hc|].
  exists None. rewrite upsert_view_new.
  specialize (Hos os eq_refl). rewrite Forall_forall in Hos.
  apply Hos. by apply list_elem_of_In.
Qed.

(** A service built over a repository in its invariant is coherent. *)
Theorem NewOrderService_coherent (w : W) : winv w -> coherent (NewOrderService w).
Proof.
  intros Hw. unfold NewOrderService.
  destruct (RestoreCacheFromDB (mkSys ∅ w)) as [s' r] eqn:E.
  apply (RestoreCacheFromDB_coherent (mkSys ∅ w) s' r); [|done].
  by apply coherent_empty_cache.
Qed.

(** C1: Write, then read: after [CreateOrder o] succeeds, a lookup of [o]'s
    identifier answers [o]'s projection from the cache. *)
Theorem read_your_writes o (s s' : Sys W) u :
  winv (repo s) -> Order.wf o = true -> Order.OrderUID o <> "" ->
  CreateOrder o s = (s', Ok u) ->
  GetOrderByUID (Order.OrderUID o) s' = (s', Ok (modelToResponse o)).
Proof.
  intros Hw Hwf Huid Hc. pose proof Hc as Hc'.
  apply CreateOrder_write_through in Hc as (uid & o' & Hsave & Hcache).
  destruct (save_spec _ _ _ _ Hw Hwf Hsave) as [_ (_ & _ & Ho' & _)].
  rewrite (Ho' Huid) in Hcache. apply GetOrderByUID_hit.
  rewrite Hcache. apply lookup_insert_eq.
Qed.
End with_laws.
