(* ===== verification/Consumer.v ===== *)
(** * The Kafka consumer ([consumer.go])

    [Start] runs [consumePartition] in one goroutine per partition; each
    loop takes messages and consumer errors from its partition in order and
    calls [processMessage] on every message, which decodes the value into a
    fresh [model.Order], drops it if decoding fails or [order_uid] is empty,
    and otherwise calls [OrderService.CreateOrder] (whose error is only
    logged).

    A message value is a JSON text: [Some j] is a text whose value is [j];
    [None] stands for bytes that are not JSON, on which [json.Unmarshal]
    fails before decoding anything.  The loops never end; the model runs
    one on any finite prefix of what its partition delivers.  The loops of
    different partitions run concurrently with each other and with the
    HTTP handlers: how their calls into the service interleave, statement
    by statement, is modelled in [Interleaving] and [CacheMu], where each
    [CreateOrder] of a loop is a thread. *)

From S2P Require Import Prelude Model Json Store Response Service.

Record ConsumerMessage := {
  Partition : Z;
  Offset : Z;
  Value : option json }.

(** What a partition consumer delivers on its two channels. *)
Inductive PartitionEvent :=
| Message (msg : ConsumerMessage)     (** [case msg := <-pc.Messages()] *)
| ConsumerError (err : string).       (** [case err := <-pc.Errors()] *)

(** [json.Unmarshal(msg.Value, &order)]. *)
Definition decodeMessage (msg : ConsumerMessage) : option Order.t :=
  match Value msg with
  | Some j => Unmarshal decode_order Order.zero j
  | None => None
  end.

Section consumer.
Context {S : Type} `{OrderService S}.

(** [processMessage]: never fails; its effect is that of [CreateOrder],
    or none. *)
Definition processMessage (msg : ConsumerMessage) (s : S) : S :=
  match decodeMessage msg with
  | None => s                                       (* Failed to unmarshal *)
  | Some order =>
      if String.eqb (Order.OrderUID order) "" then s  (* missing order_uid *)
      else (CreateOrder order s).1                    (* error only logged *)
  end.

(** One iteration of the [for]/[select] loop of [consumePartition]. *)
Definition consumeEvent (s : S) (ev : PartitionEvent) : S :=
  match ev with
  | Message msg => processMessage msg s
  | ConsumerError _ => s
  end.

(** [consumePartition] on the events delivered so far. *)
Definition consumePartition (evs : list PartitionEvent) (s : S) : S :=
  foldl consumeEvent s evs.
End consumer.

(** ** Starting the partition loops ([Start], [consumePartition])

    What the broker answers when the consumer starts: the topic's
    partitions ([c.consumer.Partitions], whose error is [log.Fatalf]),
    whether [ConsumePartition] succeeds for each partition (on an error
    [consumePartition] logs and returns: that partition is never read),
    and each partition's newest offset at that moment: a loop started at
    [sarama.OffsetNewest] only receives messages at or after it. *)
Record Broker := mkBroker {
  Partitions : result string (list Z);
  ConsumePartitionErr : Z -> option string;
  NewestOffset : Z -> Z }.

(** [Start]: the partitions whose loops run, or the fatal error. *)
Definition Start (b : Broker) : result string (list Z) :=
  match Partitions b with
  | Err e => Err e
  | Ok partitions =>
      Ok (List.filter (fun p => match ConsumePartitionErr b p with None => true | Some _ => false end)
            partitions)
  end.

(** Does a running loop receive this event? *)
Definition delivered (running : list Z) (newest : Z -> Z) (pe : Z * PartitionEvent) : bool :=
  bool_decide (pe.1 ∈ running) &&
  match pe.2 with
  | Message msg => bool_decide (newest pe.1 <= Offset msg)%Z
  | ConsumerError _ => true
  end.

(** ** What [processMessage] does, for any service *)

Section any_service.
Context {S : Type} `{OrderService S}.

(** C19: A message that does not decode, or decodes to an order without an
    identifier, leaves the service untouched. *)
Theorem processMessage_drops msg (s : S) :
  (decodeMessage msg = None \/
   exists o, decodeMessage msg = Some o /\ Order.OrderUID o = "") ->
  processMessage msg s = s.
Proof.
  unfold processMessage. intros [-> | (o & -> & Huid)]; [done|].
  by rewrite Huid.
Qed.

Lemma processMessage_creates msg o (s : S) :
  decodeMessage msg = Some o -> Order.OrderUID o <> "" ->
  processMessage msg s = (CreateOrder o s).1.
Proof.
  unfold processMessage. intros -> Huid.
  by destruct (String.eqb_spec (Order.OrderUID o) "").
Qed.

End any_service.


