(* ===== verification/Handler.v ===== *)
(** * The HTTP layer ([internal/api])

    The handlers of [handler/order_handler.go]: a handler reads the path
    parameter, calls the [OrderService] interface and writes a status and
    a JSON body.  The routes that lead to them are in [Router]. *)

From S2P Require Import Prelude Model Json Store Response Service.

(** The bodies the handlers write with [c.JSON]. *)
Inductive Body :=
| ErrorBody (error : string)                (** [gin.H{"error": ...}] *)
| OrderBody (order : OrderResponse.t)       (** the [*response.OrderResponse] *)
| StatusBody (status message : string)      (** [gin.H{"status": ..., "message": ...}] *)
| TextBody (text : string)                  (** a plain-text body written by gin itself *)
| Moved (location : string).                (** gin's redirect: [Location] and [http.Redirect]'s body *)

Record HttpResponse := { Status : Z; RespBody : Body }.

Definition StatusOK : Z := 200.
Definition StatusMovedPermanently : Z := 301.
Definition StatusBadRequest : Z := 400.
Definition StatusNotFound : Z := 404.

Section handlers.
Context {S : Type} `{OrderService S}.

(** [OrderHandler.GetOrderByUID]: every error of the service is
    answered 404. *)
Definition GetOrderByUIDHandler (orderUID : string) (s : S) : S * HttpResponse :=
  if String.eqb orderUID "" then
    (s, {| Status := StatusBadRequest; RespBody := ErrorBody "order id is required" |})
  else
    match GetOrderByUID orderUID s with
    | (s', Err _) => (s', {| Status := StatusNotFound; RespBody := ErrorBody "order not found" |})
    | (s', Ok order) => (s', {| Status := StatusOK; RespBody := OrderBody order |})
    end.

(** [OrderHandler.HealthCheck]: a constant answer; no dependency is
    checked. *)
Definition HealthCheck (s : S) : S * HttpResponse :=
  (s, {| Status := StatusOK;
         RespBody := StatusBody "ok" "Order service is running" |}).
End handlers.

(** The handler's [200] answer with [o]'s projection. *)
Definition answer (o : Order.t) : HttpResponse :=
  {| Status := StatusOK; RespBody := OrderBody (modelToResponse o) |}.

(** ** Answers of the handler *)

Section any_service.
Context {S : Type} `{OrderService S}.

(** C18: The handler answers 404 exactly when the service returned an error,
    whichever error it was. *)
Theorem handler_not_found_iff uid (s : S) :
  uid <> "" ->
  Status (GetOrderByUIDHandler uid s).2 = StatusNotFound <->
  exists s' e, GetOrderByUID uid s = (s', Err e).
Proof.
  intros Huid. unfold GetOrderByUIDHandler.
  destruct (String.eqb_spec uid "") as [|_]; [done|].
  destruct (GetOrderByUID uid s) as [s' [o|e]]; simpl.
  - split; [done|]. by intros (? & ? & ?).
  - split; [eauto|done].
Qed.

Lemma handler_ok uid (s s' : S) r :
  uid <> "" -> GetOrderByUID uid s = (s', Ok r) ->
  GetOrderByUIDHandler uid s = (s', {| Status := StatusOK; RespBody := OrderBody r |}).
Proof.
  intros Huid Hget. unfold GetOrderByUIDHandler.
  destruct (String.eqb_spec uid "") as [|_]; [done|]. by rewrite Hget.
Qed.
End any_service.
