(* ===== verification/Router.v ===== *)
(** * Routing ([internal/api/router.go] and gin's router)

    [SetupRoutes] registers three [GET] routes on the gin engine:
    [/swagger/*any] (the static Swagger UI), [/health] and, in the group
    [/api/v1], [/orders/:id].  gin answers a request by the route whose
    pattern matches the path: a literal segment matches itself, [:id]
    matches one non-empty segment and binds it, [*any] matches the rest
    of the path (at least its leading ["/"]).  When no route matches but
    the path with its trailing slash removed, or added, does, gin answers
    a redirect ([RedirectTrailingSlash], on by default); otherwise its
    plain-text 404.  [HandleMethodNotAllowed] is off, so another method
    gets the 404 too.

    [OrderHandler] and [Router] hold only the service interface; the
    service state is the one the consumer updates, passed to [ServeHTTP]
    as [s]. *)

From S2P Require Import Prelude Model Json Store Response Service Handler.
From Stdlib Require Import Ascii.

(** A segment of a route pattern. *)
Inductive PSeg :=
| Lit (s : string)
| Param (name : string)
| CatchAll (name : string).

Definition pseg (x : string) : PSeg :=
  match x with
  | String c n =>
      if Ascii.eqb c ":" then Param n else if Ascii.eqb c "*" then CatchAll n else Lit x
  | EmptyString => Lit x
  end.

(** The segments of an absolute path: [/a/b] is [["a"; "b"]], [/a/] is
    [["a"; ""]]. *)
Definition segments (path : string) : list string := tail (split_on "/" path).

Definition path_of (segs : list string) : string := "/" +:+ join_on "/" segs.

Definition pattern (path : string) : list PSeg := map pseg (segments path).

(** [RouterGroup.Group(relativePath)] followed by [GET(relativePath)]:
    gin's [joinPaths], which is the concatenation for an absolute prefix
    without a trailing slash and a path that starts with one. *)
Definition joinPaths (absolutePath relativePath : string) : string :=
  absolutePath +:+ relativePath.

Inductive HandlerFunc := HSwagger | HHealth | HGetOrderByUID.

Record RouteInfo := { Method : string; RoutePath : string; RouteHandler : HandlerFunc }.

(** [Router.SetupRoutes]. *)
Definition SetupRoutes : list RouteInfo :=
  let api := "/api/v1" in
  [ {| Method := "GET"; RoutePath := "/swagger/*any"; RouteHandler := HSwagger |};
    {| Method := "GET"; RoutePath := "/health"; RouteHandler := HHealth |};
    {| Method := "GET"; RoutePath := joinPaths api "/orders/:id"; RouteHandler := HGetOrderByUID |} ].

(** A pattern against the segments of a path: the bound parameters. *)
Fixpoint match_segs (ps : list PSeg) (segs : list string) : option (list (string * string)) :=
  match ps, segs with
  | [], [] => Some []
  | Lit l :: ps', x :: segs' => if String.eqb l x then match_segs ps' segs' else None
  | Param n :: ps', x :: segs' =>
      if String.eqb x "" then None else (fun bound => (n, x) :: bound) <$> match_segs ps' segs'
  | CatchAll n :: _, x :: segs' => Some [(n, path_of (x :: segs'))]
  | _, _ => None
  end.

Fixpoint find_route (method : string) (segs : list string) (rs : list RouteInfo)
    : option (HandlerFunc * list (string * string)) :=
  match rs with
  | [] => None
  | r :: rs' =>
      match (if String.eqb (Method r) method then match_segs (pattern (RoutePath r)) segs else None) with
      | Some bound => Some (RouteHandler r, bound)
      | None => find_route method segs rs'
      end
  end.

Inductive Route :=
| Handle (h : HandlerFunc) (params : list (string * string))
| Redirect (segs : list string)
| NotFound.

(** The other spelling of a path for [RedirectTrailingSlash]. *)
Fixpoint toggle_slash (segs : list string) : list string :=
  match segs with
  | [] => [""]
  | [x] => if String.eqb x "" then [] else [x; ""]
  | x :: rest => x :: toggle_slash rest
  end.

(** gin's [handleHTTPRequest] on the routes [rs]. *)
Definition route (rs : list RouteInfo) (method : string) (segs : list string) : Route :=
  match find_route method segs rs with
  | Some (h, bound) => Handle h bound
  | None =>
      if existsb (fun r => String.eqb (Method r) method) rs then
        match find_route method (toggle_slash segs) rs with
        | Some _ => Redirect (toggle_slash segs)
        | None => NotFound
        end
      else NotFound
  end.

(** [c.Param(name)]: the bound value, or [""]. *)
Fixpoint param (bound : list (string * string)) (name : string) : string :=
  match bound with
  | [] => ""
  | (k, v) :: bound' => if String.eqb k name then v else param bound' name
  end.

Section router.
Context {S : Type} `{OrderService S}.

(** The engine serving a request; the static Swagger files are not
    modelled ([None]). *)
Definition ServeHTTP (method path : string) (s : S) : S * option HttpResponse :=
  match route SetupRoutes method (segments path) with
  | Handle HHealth _ => let '(s', r) := HealthCheck s in (s', Some r)
  | Handle HGetOrderByUID bound =>
      let '(s', r) := GetOrderByUIDHandler (param bound "id") s in (s', Some r)
  | Handle HSwagger _ => (s, None)
  | Redirect segs =>
      (s, Some {| Status := StatusMovedPermanently; RespBody := Moved (path_of segs) |})
  | NotFound => (s, Some {| Status := StatusNotFound; RespBody := TextBody "404 page not found" |})
  end.
End router.

(** ** Which requests reach which handler

    The routes of [SetupRoutes], spelled out on the segments of a path. *)
Definition route_spec (method : string) (segs : list string) : Route :=
  if negb (String.eqb method "GET") then NotFound else
  match segs with
  | [a] =>
      if String.eqb a "health" then Handle HHealth []
      else if String.eqb a "swagger" then Redirect ["swagger"; ""]
      else NotFound
  | [a; b] =>
      if String.eqb a "swagger" then Handle HSwagger [("any", path_of [b])]
      else if String.eqb a "health" && String.eqb b "" then Redirect ["health"]
      else NotFound
  | a :: b :: c :: rest =>
      if String.eqb a "swagger" then Handle HSwagger [("any", path_of (b :: c :: rest))]
      else if String.eqb a "api" && String.eqb b "v1" && String.eqb c "orders" then
        match rest with
        | [id] => if String.eqb id "" then NotFound else Handle HGetOrderByUID [("id", id)]
        | [id; e] =>
            if String.eqb e "" && negb (String.eqb id "") then Redirect ["api"; "v1"; "orders"; id]
            else NotFound
        | _ => NotFound
        end
      else NotFound
  | _ => NotFound
  end.

(** ** gin's router on [SetupRoutes] *)

Local Arguments String.eqb : simpl never.

(** The registered patterns, parsed. *)
Lemma find_route_SetupRoutes m segs :
  find_route m segs SetupRoutes =
  if String.eqb "GET" m then
    match match_segs [Lit "swagger"; CatchAll "any"] segs with
    | Some b => Some (HSwagger, b)
    | None =>
        match match_segs [Lit "health"] segs with
        | Some b => Some (HHealth, b)
        | None =>
            (fun b => (HGetOrderByUID, b)) <$>
              match_segs [Lit "api"; Lit "v1"; Lit "orders"; Param "id"] segs
        end
    end
  else None.
Proof.
  unfold SetupRoutes; simpl. destruct (String.eqb "GET" m); [|done].
  by repeat case_match.
Qed.

Lemma existsb_SetupRoutes m :
  existsb (fun r => String.eqb (Method r) m) SetupRoutes = String.eqb "GET" m.
Proof. simpl. by destruct (String.eqb "GET" m). Qed.

Ltac eqb_cases :=
  repeat (match goal with
          | |- context [String.eqb ?x ?y] =>
              destruct (String.eqb_spec x y); subst; simpl in *
          end; try congruence).

(** gin's matching over the registered routes is the table above. *)
Lemma route_SetupRoutes m segs : route SetupRoutes m segs = route_spec m segs.
Proof.
  unfold route, route_spec. rewrite existsb_SetupRoutes, !find_route_SetupRoutes.
  destruct (String.eqb_spec m "GET") as [->|Hm]; simpl.
  - destruct segs as [|a [|b [|c [|d [|e [|f rest]]]]]]; simpl; eqb_cases; try done.
  - assert (String.eqb "GET" m = false) as -> by (apply String.eqb_neq; congruence).
    done.
Qed.

(** The only route that reaches the service. *)
Lemma route_spec_order m segs bound :
  route_spec m segs = Handle HGetOrderByUID bound ->
  exists id, id <> "" /\ m = "GET" /\ segs = ["api"; "v1"; "orders"; id] /\ bound = [("id", id)].
Proof.
  unfold route_spec. destruct (String.eqb_spec m "GET") as [->|]; [simpl|done].
  destruct segs as [|a [|b [|c [|d [|e rest]]]]]; eqb_cases; try done;
    try by destruct rest.
  intros [= <-]. eauto 10.
Qed.

Section routed.
Context {S : Type} `{OrderService S}.

(** C16: Only [GET /api/v1/orders/:id] reaches the service: such a request
    is answered by [OrderHandler.GetOrderByUID] on the bound identifier,
    and every other request (health, Swagger, a redirect for a trailing
    slash, gin's 404, another method) leaves the service's state as it
    was. *)
Theorem ServeHTTP_only_orders m path (s : S) :
  (forall id, id <> "" -> m = "GET" -> segments path = ["api"; "v1"; "orders"; id] ->
     ServeHTTP m path s = let '(s', r) := GetOrderByUIDHandler id s in (s', Some r)) /\
  (~ (m = "GET" /\ exists id, id <> "" /\ segments path = ["api"; "v1"; "orders"; id]) ->
     (ServeHTTP m path s).1 = s).
Proof.
  split.
  - intros id Hid -> Hsegs. unfold ServeHTTP. rewrite route_SetupRoutes, Hsegs.
    unfold route_spec. simpl. by rewrite (proj2 (String.eqb_neq id "") Hid).
  - intros Hnot. unfold ServeHTTP. rewrite route_SetupRoutes.
    destruct (route_spec m (segments path)) as [[| |] bound| |] eqn:Hroute; try done.
    apply route_spec_order in Hroute as (id & Hid & -> & Hsegs & _).
    destruct Hnot. eauto.
Qed.

(** C23: The router never answers 400: the handler's check for an empty
    identifier cannot fire behind [GET /api/v1/orders/:id]. *)
Theorem router_never_bad_request m path (s s' : S) r :
  ServeHTTP m path s = (s', Some r) -> Status r <> StatusBadRequest.
Proof.
  unfold ServeHTTP. rewrite route_SetupRoutes.
  destruct (route_spec m (segments path)) as [[| |] bound| |] eqn:Hroute;
    simpl; try (by intros [=]); try (by intros [= _ <-]).
  apply route_spec_order in Hroute as (id & Hid & _ & _ & ->). simpl.
  unfold GetOrderByUIDHandler.
  destruct (String.eqb_spec id "") as [|_]; [done|].
  destruct (GetOrderByUID id s) as [s1 [o|e]]; by intros [= _ <-].
Qed.
End routed.

