(* ===== verification/System.v ===== *)
(** * The assembled program: [cmd/server/main.go] with PostgreSQL

    [main] builds [orderRepo] over the pool, [NewOrderService] over it (a
    cold-start restore), the consumer and the router over the service.
    Here the service state is [Sys DB]: the cache over the PostgreSQL model.
    This file holds the theorems that depend on PostgreSQL: the bound the
    [INTEGER] column puts on [sm_id], the columns the upsert does not
    update, and the scenarios of the spec's section 8 run end to end. *)

From S2P Require Import Prelude Model Json Store Response Service Consumer Handler.

Definition App : Type := Sys DB.

(** A database with the given rows that answers every round trip. *)
Definition healthy (t : gmap string Row) : DB :=
  {| rows := t; faults := []; next_uuid := 0 |}.

(** The interface's methods on [DB] are [PgRepo]'s. *)
Lemma pg_SaveOrder o db : Store.SaveOrder o db = PgRepo.SaveOrder o db.
Proof. reflexivity. Qed.
Lemma pg_GetOrderByUID k db : Store.GetOrderByUID k db = PgRepo.GetOrderByUID k db.
Proof. reflexivity. Qed.
Lemma pg_GetAllOrders db : Store.GetAllOrders db = PgRepo.GetAllOrders db.
Proof. reflexivity. Qed.

(** ** Saving on a healthy database *)

Section pg_save.
Import PgRepo.

(** An order with an identifier whose values fit the column types is
    upserted, and returned unchanged. *)
Lemma SaveOrder_healthy o db :
  faults db = [] -> Order.OrderUID o <> "" ->
  in_int32 (Order.SmID o) = true -> fits (order_row o) = true ->
  SaveOrder o db =
  ({| rows := upsert (order_row o) (rows db); faults := []; next_uuid := next_uuid db |},
   Ok (Order.OrderUID o, o)).
Proof.
  intros Hf Huid H32 Hfits. unfold SaveOrder, bind, ret, lift_db.
  destruct (String.eqb_spec (Order.OrderUID o) "") as [|_]; [done|].
  unfold exec_upsert. simpl. rewrite H32. simpl.
  unfold bind. rewrite roundtrip_healthy by done. rewrite Hfits. simpl.
  by rewrite Hf.
Qed.

(** An [sm_id] that Go's [int] holds but PostgreSQL's [INTEGER] does not
    makes the save fail before anything is sent. *)
Lemma SaveOrder_sm_id_overflow o db :
  Order.OrderUID o <> "" -> in_int32 (Order.SmID o) = false ->
  SaveOrder o db = (db, Err (ErrSaveFailed (DbEncode "sm_id"))).
Proof.
  intros Huid H32. unfold SaveOrder, bind, ret, lift_db.
  destruct (String.eqb_spec (Order.OrderUID o) "") as [|_]; [done|].
  unfold exec_upsert. simpl. by rewrite H32.
Qed.
(** A string longer than its [VARCHAR] column: the server rejects the
    [INSERT] with SQLSTATE 22001 and the table is left alone. *)
Lemma SaveOrder_varchar_overflow o db :
  faults db = [] -> Order.OrderUID o <> "" -> in_int32 (Order.SmID o) = true ->
  fits (order_row o) = false ->
  SaveOrder o db = (db, Err (ErrSaveFailed (DbPg "22001"))).
Proof.
  intros Hf Huid H32 Hfits. unfold SaveOrder, bind, ret, lift_db.
  destruct (String.eqb_spec (Order.OrderUID o) "") as [|_]; [done|].
  unfold exec_upsert. simpl. rewrite H32. simpl.
  unfold bind. rewrite roundtrip_healthy by done. by rewrite Hfits.
Qed.
End pg_save.

(** What [SaveOrder] needs to succeed on a database that answers: an
    identifier, a value of [model.Order], an [sm_id] within [INTEGER] and
    strings within their [VARCHAR] columns. *)
Definition saveable (o : Order.t) : bool :=
  negb (String.eqb (Order.OrderUID o) "") && Order.wf o && in_int32 (Order.SmID o) &&
  PgRepo.fits (PgRepo.order_row o).

Lemma saveable_spec o :
  saveable o = true ->
  Order.OrderUID o <> "" /\ Order.wf o = true /\ in_int32 (Order.SmID o) = true /\
  PgRepo.fits (PgRepo.order_row o) = true.
Proof.
  unfold saveable. intros H. apply andb_prop in H as [H Hfits]. apply andb_prop in H as [H H32].
  apply andb_prop in H as [Huid Hwf]. split_and!; [|done..].
  by destruct (String.eqb_spec (Order.OrderUID o) "").
Qed.

Lemma CreateOrder_healthy o (s : App) :
  faults (repo s) = [] -> saveable o = true ->
  orderService.CreateOrder o s =
  (mkSys (<[Order.OrderUID o := o]> (cache s))
     {| rows := PgRepo.upsert (PgRepo.order_row o) (rows (repo s)); faults := [];
        next_uuid := next_uuid (repo s) |}, Ok tt).
Proof.
  intros Hf Hs. destruct (saveable_spec o Hs) as (Huid & _ & H32 & Hfits).
  by rewrite CreateOrder_run, pg_SaveOrder, SaveOrder_healthy.
Qed.

(** ** Values decoding accepts but the table rejects *)

(** C11: A message whose [sm_id] fits Go's [int] but not PostgreSQL's
    [INTEGER] decodes, passes validation, and is then lost: the consumer
    leaves the whole state as it was. *)
Theorem consumer_drops_sm_id_overflow msg o (s : App) :
  decodeMessage msg = Some o -> Order.OrderUID o <> "" ->
  in_int32 (Order.SmID o) = false ->
  processMessage msg s = s.
Proof.
  intros Hdec Huid H32. rewrite (processMessage_creates msg o s Hdec Huid).
  simpl. rewrite CreateOrder_run, pg_SaveOrder.
  rewrite (SaveOrder_sm_id_overflow o (repo s) Huid H32). by destruct s.
Qed.


(** C21: The spec's scenario A, for every message: on a database that
    answers, a message that decodes to an order [SaveOrder] can store is
    then served by the handler with [200] and the order's projection,
    from the cache. *)
Theorem message_then_served msg o (s : App) :
  faults (repo s) = [] -> decodeMessage msg = Some o -> saveable o = true ->
  let s' := processMessage msg s in
  GetOrderByUIDHandler (Order.OrderUID o) s' = (s', answer o).
Proof.
  intros Hf Hdec Hs. destruct (saveable_spec o Hs) as (Huid & _).
  cbv zeta. rewrite (processMessage_creates msg o s Hdec Huid). simpl.
  rewrite (CreateOrder_healthy o s Hf Hs). apply handler_ok; [done|].
  apply GetOrderByUID_hit. apply lookup_insert_eq.
Qed.

(** ** The upsert does not update every column *)

(** C4: Saving [o2] over a stored [o1] with the same identifier caches [o2],
    while the store now holds [merge_order o1 o2]: [o1]'s locale, internal
    signature, customer, delivery service, shard key, [sm_id] and
    [oof_shard] under [o2]'s other fields. *)
Theorem upsert_keeps_unupdated_columns (s : App) o1 o2 :
  faults (repo s) = [] -> pg_winv (repo s) -> Order.wf o2 = true ->
  Order.OrderUID o2 <> "" -> in_int32 (Order.SmID o2) = true ->
  PgRepo.fits (PgRepo.order_row o2) = true ->
  pg_stored (repo s) !! Order.OrderUID o2 = Some o1 ->
  exists s', CreateOrder o2 s = (s', Ok tt) /\
    cache s' !! Order.OrderUID o2 = Some o2 /\
    pg_stored (repo s') !! Order.OrderUID o2 = Some (merge_order o1 o2).
Proof.
  intros Hf Hw Hwf Huid H32 Hfits Hold. simpl. rewrite CreateOrder_run, pg_SaveOrder.
  rewrite SaveOrder_healthy by done. eexists. split; [done|].
  split; [apply lookup_insert_eq|].
  unfold pg_stored. simpl. rewrite stored_upsert by done.
  rewrite lookup_insert_eq. unfold pg_stored in Hold. by rewrite Hold.
Qed.

(** ** Cold start on a healthy database *)

Section cold_start.
Import PgRepo.

Lemma scan_rows_healthy uids acc db :
  faults db = [] -> Forall (fun u => is_Some (rows db !! u)) uids ->
  scan_rows uids acc db = (db, Ok (acc ++ omap (fun u => row_order <$> rows db !! u) uids)).
Proof.
  intros Hf. revert acc. induction uids as [|u uids IH]; intros acc Hall; simpl.
  { by rewrite app_nil_r. }
  inversion Hall as [|? ? [r Hr] Hrest]; subst.
  rewrite roundtrip_healthy by done. rewrite (GetOrderByUID_healthy u db r Hf Hr).
  rewrite IH by done. rewrite Hr. simpl. by rewrite <- app_assoc.
Qed.

Lemma omap_lookup_map_to_list (f : Row -> Order.t) (t : gmap string Row) l :
  Forall (fun kr => t !! kr.1 = Some kr.2) l ->
  omap (fun u => f <$> t !! u) (map fst l) = map (fun kr => f kr.2) l.
Proof.
  induction l as [|[k r] l IH]; intros Hl; [done|].
  inversion Hl as [|? ? Hk Hrest]; subst. simpl in *. rewrite Hk. simpl. f_equal. by apply IH.
Qed.

(** The list [GetAllOrders] returns on a healthy database: every row,
    decoded, in the table's order. *)
Definition all_rows (db : DB) : list Order.t :=
  map (fun kr => row_order kr.2) (map_to_list (rows db)).

Lemma map_to_list_forall (t : gmap string Row) (P : string * Row -> Prop) :
  (forall k r, t !! k = Some r -> P (k, r)) -> Forall P (map_to_list t).
Proof.
  intros HP. apply Forall_forall. intros [k r] Hkr%list_elem_of_In.
  by apply HP, elem_of_map_to_list.
Qed.

Lemma map_to_list_lookups (t : gmap string Row) :
  Forall (fun kr => t !! kr.1 = Some kr.2) (map_to_list t).
Proof. by apply map_to_list_forall. Qed.

Lemma GetAllOrders_healthy db :
  faults db = [] -> GetAllOrders db = (db, Ok (all_rows db)).
Proof.
  intros Hf. unfold GetAllOrders, lift_db, bind, get.
  rewrite roundtrip_healthy by done. simpl.
  rewrite scan_rows_healthy; [|done|].
  - unfold all_rows. rewrite app_nil_l. do 2 f_equal.
    exact (omap_lookup_map_to_list row_order (rows db) _ (map_to_list_lookups _)).
  - apply Forall_fmap, map_to_list_forall. intros k r Hk. simpl. eauto.
Qed.

Lemma all_rows_keys db : keyed (rows db) -> map Order.OrderUID (all_rows db) = map fst (map_to_list (rows db)).
Proof.
  intros Hkeyed. unfold all_rows. rewrite map_map. apply map_ext_in.
  intros [k r] Hin%list_elem_of_In%elem_of_map_to_list. by apply Hkeyed.
Qed.

Lemma last_with_all_rows db k :
  keyed (rows db) ->
  last_with Order.OrderUID k (all_rows db) = row_order <$> rows db !! k.
Proof.
  intros Hkeyed. destruct (rows db !! k) as [r|] eqn:Hk; simpl.
  - apply last_with_unique.
    + rewrite all_rows_keys by done. apply NoDup_fst_map_to_list.
    + apply list_elem_of_fmap. exists (k, r). split; [done|]. by apply elem_of_map_to_list.
    + simpl. by apply Hkeyed in Hk.
  - apply last_with_None. unfold all_rows. apply Forall_fmap, map_to_list_forall.
    intros k' r' Hk' Heq. simpl in *. rewrite (Hkeyed _ _ Hk') in Heq. congruence.
Qed.
End cold_start.

(** A read that the store cannot answer: the key has no row. *)
Lemma pg_GetOrderByUID_absent k db :
  pg_stored db !! k = None -> exists db' e, PgRepo.GetOrderByUID k db = (db', Err e).
Proof.
  unfold pg_stored. rewrite lookup_fmap. intros Hk.
  destruct (PgRepo.GetOrderByUID k db) as [db' [o|e]] eqn:Hget; [|eauto].
  apply GetOrderByUID_spec in Hget as [_ Ho]. destruct (Ho o eq_refl) as (row & Hrow & _).
  by rewrite Hrow in Hk.
Qed.

Lemma keyed_check t : map_Forall (fun k r => order_uid r = k) t -> keyed t.
Proof. intros Ht k r Hk. exact (Ht k r Hk). Qed.

(** ** Cold start (the spec's scenario C) *)

Lemma NewOrderService_healthy db :
  faults db = [] -> pg_winv db -> orderService.NewOrderService db = mkSys (pg_stored db) db.
Proof.
  intros Hf Hw. unfold orderService.NewOrderService.
  rewrite RestoreCacheFromDB_run, pg_GetAllOrders, GetAllOrders_healthy by done.
  simpl. f_equal. apply map_eq. intros k.
  rewrite lookup_insert_each, last_with_all_rows by done.
  unfold pg_stored. rewrite lookup_fmap, lookup_empty. by destruct (rows db !! k).
Qed.

(** The same database answering its next round trips by [fs]: for
    instance a connection that drops for good, [Some DbConnection] for
    each. *)
Definition with_faults (fs : list (option db_error)) (db : DB) : DB :=
  {| rows := rows db; faults := fs; next_uuid := next_uuid db |}.

(** C7: After [NewOrderService] over a healthy database whose rows sit under
    their own keys, the database is unchanged and the cache holds exactly
    the stored orders; from then on, whatever the database answers (even
    a connection that fails every round trip), a lookup of any stored
    identifier answers the stored order and leaves the whole state,
    the database's pending answers included, as it was: it never reaches
    the store. *)
Theorem cold_start_warm_cache db :
  faults db = [] -> pg_winv db ->
  let s : App := orderService.NewOrderService db in
  repo s = db /\ cache s = pg_stored db /\
  forall fs k o, pg_stored db !! k = Some o ->
    let s' : App := mkSys (cache s) (with_faults fs (repo s)) in
    orderService.GetOrderByUID k s' = (s', Ok (modelToResponse o)).
Proof.
  intros Hf Hw. cbv zeta. rewrite NewOrderService_healthy by done.
  split; [done|]. split; [done|]. intros fs k o Hk. by apply GetOrderByUID_hit.
Qed.


(** ** A failed write is not visible (the spec's scenario D) *)

(** C8: When [CreateOrder] fails for an identifier that neither the cache
    nor the store holds, a following lookup through the HTTP handler
    answers 404: the failed write was never cached, and whatever the store
    does on the read, it cannot return the order. *)
Theorem failed_write_not_found o (s s' : App) e :
  Order.OrderUID o <> "" ->
  cache s !! Order.OrderUID o = None -> pg_stored (repo s) !! Order.OrderUID o = None ->
  orderService.CreateOrder o s = (s', Err e) ->
  Status (GetOrderByUIDHandler (Order.OrderUID o) s').2 = StatusNotFound.
Proof.
  intros Huid Hc Hst Hcreate.
  rewrite CreateOrder_run, pg_SaveOrder in Hcreate.
  destruct (PgRepo.SaveOrder o (repo s)) as [db' [[uid o']|e']] eqn:Hsave; [done|].
  apply SaveOrder_spec in Hsave as [Hrows _]. injection Hcreate as <- _.
  assert (pg_stored db' !! Order.OrderUID o = None) as Hst'.
  { unfold pg_stored in *. simpl in Hrows. by rewrite Hrows. }
  destruct (pg_GetOrderByUID_absent _ _ Hst') as (db'' & e'' & Hget).
  unfold GetOrderByUIDHandler. destruct (String.eqb_spec (Order.OrderUID o) "") as [|_]; [done|].
  simpl. rewrite GetOrderByUID_run. simpl. rewrite Hc, Hget.
  done.
Qed.

(** ** [RestoreCacheFromDB] reports only the first query's failure *)

(** C9: The restore over PostgreSQL succeeds exactly when the first round
    trip, [SELECT order_uid FROM orders], succeeds: a failure while the
    rows are iterated is never reported ([rows.Err()] is not consulted),
    however many orders it leaves out. *)
Theorem RestoreCacheFromDB_error_only_on_query (s : App) :
  (exists s', orderService.RestoreCacheFromDB s = (s', Ok tt)) <->
  is_ok (PgRepo.roundtrip (repo s)).2 = true.
Proof.
  rewrite RestoreCacheFromDB_run, pg_GetAllOrders.
  unfold PgRepo.GetAllOrders, PgRepo.lift_db, bind, get.
  destruct (PgRepo.roundtrip (repo s)) as [db1 [[]|e]]; simpl; [|split; [by intros [? ?]|done]].
  destruct (PgRepo.scan_rows _ [] db1) as [db2 r] eqn:Hscan.
  apply scan_rows_spec in Hscan as [_ [os [-> _]]]. split; [done|]. eauto.
Qed.
