(* ===== verification/Scenarios.v ===== *)
(** * The spec's scenarios, run on the model

    Concrete runs of the assembled program ([System]) on small inputs: the
    consumer fed with JSON messages, the service over a PostgreSQL model,
    the HTTP handler answering.  Each run is evaluated by the kernel; the
    closed lemmas at the end apply the general theorems at these inputs. *)

From S2P Require Import Prelude Model Json Store Response Service Consumer Handler Router System.

(** An order with the given identifier, track number and [oof_shard], its
    other fields zero. *)
Definition sample (uid track oof : string) : Order.t :=
  Order.set_OofShard oof (Order.set_TrackNumber track (Order.set_OrderUID uid Order.zero)).

(** A Kafka message whose value is the JSON object [kvs]. *)
Definition message (off : Z) (kvs : list (string * json)) : ConsumerMessage :=
  {| Partition := 0; Offset := off; Value := Some (JObject kvs) |}.

Definition msgA := message 0 [("order_uid", JString "A1"); ("track_number", JString "T1")].
Definition msgB := message 1 [("track_number", JString "T1")].
Definition msgA1 := message 2
  [("order_uid", JString "A1"); ("track_number", JString "T1"); ("oof_shard", JString "1")].
Definition msgA2 := message 3
  [("order_uid", JString "A1"); ("track_number", JString "T2"); ("oof_shard", JString "2")].
(** [sm_id] is [2^31]: a Go [int], not a PostgreSQL [INTEGER]. *)
Definition msgBig := message 4
  [("order_uid", JString "B1"); ("sm_id", JNumber 2147483648)].

(** A table pre-populated by three saves. *)
Definition rowsC : gmap string Row :=
  foldr (fun o t => PgRepo.upsert (PgRepo.order_row o) t) ∅
    [sample "C1" "T1" ""; sample "C2" "T2" ""; sample "C3" "T3" ""].

(** The same table behind a connection that fails at the fourth round
    trip: the query, then [Next] and the read of the first row succeed. *)
Definition dbFlaky : DB :=
  {| rows := rowsC; faults := [None; None; None; Some DbConnection]; next_uuid := 0 |}.

(** A connection lost while [GetAllOrders] iterates: the restore reports
    success, and the cache holds one of the three stored orders. *)
Example restore_partial_on_iteration_error :
  exists s', orderService.RestoreCacheFromDB (mkSys ∅ dbFlaky) = (s', Ok tt) /\
    map_size (cache s') = 1 /\ map_size (pg_stored (repo s')) = 3.
Proof. eexists. split; [vm_compute; reflexivity|]. split; vm_compute; reflexivity. Qed.

(** [date_created] must be an RFC 3339 time that exists: a message
    dated 29 February of a common year does not decode, and the consumer
    drops the whole order, whatever the state; the same date in a leap
    year decodes. *)
Example bad_timestamp_dropped (s : App) :
  processMessage (message 5 [("order_uid", JString "D1");
                             ("date_created", JString "2023-02-29T10:00:00Z")]) s = s /\
  decodeMessage (message 6 [("order_uid", JString "D1");
                            ("date_created", JString "2024-02-29T10:00:00+03:00")]) =
    Some (Order.set_DateCreated "2024-02-29T10:00:00+03:00" (sample "D1" "" "")).
Proof.
  split; [|vm_compute; reflexivity].
  unfold processMessage.
  replace (decodeMessage _) with (@None Order.t) by (vm_compute; reflexivity).
  reflexivity.
Qed.

(** ** The general theorems at these inputs *)

Definition s0 : App := mkSys ∅ (healthy ∅).
Definition dbC : DB := healthy rowsC.
(** A database whose next round trip fails. *)
Definition s0fail : App := mkSys ∅ {| rows := ∅; faults := [Some DbConnection]; next_uuid := 0 |}.
Definition oA : Order.t := sample "A1" "T1" "".

Lemma keyed_by_computation t :
  bool_decide (map_Forall (fun k r => order_uid r = k) t) = true -> keyed t.
Proof. intros Ht. apply keyed_check. exact (bool_decide_eq_true_1 _ Ht). Qed.

Ltac keyed_db := apply keyed_by_computation; vm_compute; reflexivity.

Lemma read_your_writes_witness :
  orderService.GetOrderByUID "A1" (orderService.CreateOrder oA s0).1 =
  ((orderService.CreateOrder oA s0).1, Ok (modelToResponse oA)).
Proof.
  apply (read_your_writes oA s0 _ tt); [keyed_db|reflexivity|discriminate|].
  vm_compute. reflexivity.
Defined.

Lemma CreateOrder_error_keeps_cache_witness :
  cache (orderService.CreateOrder oA s0fail).1 = cache s0fail.
Proof.
  apply (CreateOrder_error_keeps_cache oA s0fail _ (ErrSaveFailed DbConnection)).
  vm_compute. reflexivity.
Defined.

Lemma upsert_keeps_unupdated_columns_witness :
  exists s', orderService.CreateOrder (sample "A1" "T2" "2") (processMessage msgA1 s0) = (s', Ok tt) /\
    cache s' !! "A1" = Some (sample "A1" "T2" "2") /\
    pg_stored (repo s') !! "A1" = Some (merge_order (sample "A1" "T1" "1") (sample "A1" "T2" "2")).
Proof.
  apply (upsert_keeps_unupdated_columns (processMessage msgA1 s0) (sample "A1" "T1" "1"));
    [reflexivity|keyed_db|reflexivity|discriminate|reflexivity|reflexivity|vm_compute; reflexivity].
Defined.

(** After the cold start the connection drops; the restored order is
    still served. *)
Lemma cold_start_warm_cache_witness :
  let s := orderService.NewOrderService dbC in
  let s' : App := mkSys (cache s) (with_faults [Some DbConnection] (repo s)) in
  orderService.GetOrderByUID "C2" s' = (s', Ok (modelToResponse (sample "C2" "T2" ""))).
Proof.
  assert (Hw : pg_winv dbC) by keyed_db.
  destruct (cold_start_warm_cache dbC eq_refl Hw) as (_ & _ & Hget).
  apply Hget. vm_compute. reflexivity.
Defined.

Lemma failed_write_not_found_witness :
  Status (GetOrderByUIDHandler "A1" (orderService.CreateOrder oA s0fail).1).2 = StatusNotFound.
Proof.
  apply (failed_write_not_found oA s0fail _ (ErrSaveFailed DbConnection));
    [discriminate|reflexivity|reflexivity|vm_compute; reflexivity].
Defined.

Lemma consumer_drops_sm_id_overflow_witness : processMessage msgBig s0 = s0.
Proof.
  apply (consumer_drops_sm_id_overflow msgBig (Order.set_SmID 2147483648 (sample "B1" "" "")));
    [vm_compute; reflexivity|discriminate|reflexivity].
Defined.

(** A [locale] of 13 bytes, for a [VARCHAR(10)] column. *)
Definition msgLong := message 7 [("order_uid", JString "L1"); ("locale", JString "en-US-POSIX-x")].

(** The order a message decodes to. *)
Definition decoded (msg : ConsumerMessage) : Order.t :=
  match decodeMessage msg with Some o => o | None => Order.zero end.


(** The spec's scenario A. *)
Lemma message_then_served_witness :
  GetOrderByUIDHandler (Order.OrderUID (decoded msgA)) (processMessage msgA s0) =
  (processMessage msgA s0, answer (decoded msgA)).
Proof. apply message_then_served; [reflexivity|vm_compute; reflexivity..]. Defined.

(** [A1] ingested twice, with [oof_shard] [1] and then [2]; the restart
    answers [T2] with [oof_shard] [1]. *)
Definition oR1 : Order.t := sample "A1" "T1" "1".
Definition oR2 : Order.t := sample "A1" "T2" "2".


Definition oFull : Order.t :=
  Order.mk "F1" "WBILMTESTTRACK" "WBIL"
    (Delivery.mk "Test Testov" "+9720000000" "2639809" "Kiryat Mozkin" "Ploshad Mira 15"
       "Kraiot" "test@gmail.com")
    (Payment.mk "F1" "" "USD" 1817 1637907727 "alpha" 1500 317)
    [Item.mk 9934930 "WBILMTESTTRACK" 453 "ab4219087a764ae0btest" "Mascaras" 30 "0" 317
       2389212 "Vivienne Sabo" 202]
    "en" "" "test" "meest" "9" 99 "2021-11-26T06:22:19Z" "1".

(** [oFull] without an identifier: [SaveOrder] gives it [uuid-0], and it
    reads back whole. *)
Definition oNoId : Order.t := Order.set_OrderUID "" oFull.


Lemma methods_never_evict_witness :
  is_Some (cache (orderService.CreateOrder (sample "A1" "T2" "2") (processMessage msgA s0)).1 !! "A1").
Proof.
  assert (Hk : is_Some (cache (processMessage msgA s0) !! "A1")).
  { eexists. vm_compute. reflexivity. }
  destruct (methods_never_evict (processMessage msgA s0) "A1" Hk) as [Hc _]. apply Hc.
Defined.

Lemma handler_not_found_iff_witness :
  Status (GetOrderByUIDHandler "Z9" s0).2 = StatusNotFound <->
  exists s' e, GetOrderByUID "Z9" s0 = (s', Err e).
Proof. apply handler_not_found_iff. discriminate. Defined.

(** The spec's scenario B: a message without [order_uid] changes nothing. *)
Lemma processMessage_drops_witness : processMessage msgB s0 = s0.
Proof.
  apply processMessage_drops. right. exists (sample "" "T1" "").
  split; [vm_compute; reflexivity|reflexivity].
Defined.

Lemma GetOrderByUID_error_keeps_cache_witness :
  cache (orderService.GetOrderByUID "Z9" s0).1 = cache s0 /\ cache s0 !! "Z9" = None.
Proof. apply (GetOrderByUID_error_keeps_cache "Z9" s0 _ (ErrDb DbNoRows)). reflexivity. Defined.

Lemma router_never_bad_request_witness :
  match (ServeHTTP "GET" "/api/v1/orders/A1" s0).2 with
  | Some r => Status r <> StatusBadRequest
  | None => False
  end.
Proof.
  destruct (ServeHTTP "GET" "/api/v1/orders/A1" s0) as [s' [r|]] eqn:E; simpl.
  - exact (router_never_bad_request "GET" "/api/v1/orders/A1" s0 s' r E).
  - vm_compute in E. discriminate.
Defined.

(** A lookup through the router is the handler's lookup; a request with a
    trailing slash is redirected and leaves the service alone. *)
Lemma ServeHTTP_only_orders_witness :
  ServeHTTP "GET" "/api/v1/orders/A1" s0 =
    (let '(s', r) := GetOrderByUIDHandler "A1" s0 in (s', Some r)) /\
  (ServeHTTP "GET" "/api/v1/orders/A1/" s0).1 = s0.
Proof.
  split.
  - apply (ServeHTTP_only_orders "GET" "/api/v1/orders/A1" s0); [discriminate|done|reflexivity].
  - apply (ServeHTTP_only_orders "GET" "/api/v1/orders/A1/" s0).
    intros (_ & id & _ & Hsegs). vm_compute in Hsegs. discriminate.
Defined.

(** A topic of two partitions: [ConsumePartition] fails on partition 1,
    and partition 0 held one message ([msgA], offset 0) before the start. *)
Definition broker1 : Broker :=
  {| Partitions := Ok [0%Z; 1%Z];
     ConsumePartitionErr := fun p => if Z.eqb p 1 then Some "partition unavailable" else None;
     NewestOffset := fun _ => 1%Z |}.

