(* ===== verification/Interleaving.v ===== *)
(** * The service's methods as atomic steps under [cacheMu], interleaved

    In [order_service.go] a method is not one atomic step: the store is
    called outside the lock, and the cache is read or written in short
    critical sections of [cacheMu].  A call in progress is a [thread]
    whose constructor says which atomic step comes next:
    - [GetOrderByUID]: [GetStart] (lines 58-60, read the cache under
      [RLock]), [GetRead] (line 67, the store read), [GetFill] (lines
      73-75, write the cache under [Lock]);
    - [CreateOrder]: [CreateStart] (line 43, the store write),
      [CreateFill] (lines 48-50);
    - [RestoreCacheFromDB]: [RestoreStart] (line 81), [RestoreFill]
      (lines 86-91, one critical section for the whole loop);
    - [Returned r]: the call has returned [r].
    A configuration is the shared state and the pool of threads; a step
    runs the next atomic step of any one thread ([step]).  Every atomic
    step of the store is the repository's operation, so the theorems hold
    for any [OrderRepository]. *)

From S2P Require Import Prelude Model Json Store Response Service System Scenarios.

(** What a call returns: [error], or the [*OrderResponse]. *)
Inductive reply := RUnit | RResp (r : OrderResponse.t).

Inductive thread :=
| GetStart (uid : string)
| GetRead (uid : string)
| GetFill (uid : string) (o : Order.t)
| CreateStart (o : Order.t)
| CreateFill (o : Order.t)
| RestoreStart
| RestoreFill (os : list Order.t)
| Returned (r : result repo_error reply).

Section steps.
Context {W : Type} `{OrderRepository W}.

Definition Conf : Type := Sys W * list thread.

(** The next atomic step of a thread; [None] once it has returned. *)
Definition exec (t : thread) (s : Sys W) : option (thread * Sys W) :=
  match t with
  | GetStart uid =>
      Some (match cache s !! uid with
            | Some o => Returned (Ok (RResp (modelToResponse o)))
            | None => GetRead uid
            end, s)
  | GetRead uid =>
      let '(w', r) := Store.GetOrderByUID uid (repo s) in
      Some (match r with Ok o => GetFill uid o | Err e => Returned (Err e) end,
            mkSys (cache s) w')
  | GetFill uid o =>
      Some (Returned (Ok (RResp (modelToResponse o))), mkSys (<[uid := o]> (cache s)) (repo s))
  | CreateStart o =>
      let '(w', r) := Store.SaveOrder o (repo s) in
      Some (match r with Ok (_, o') => CreateFill o' | Err e => Returned (Err e) end,
            mkSys (cache s) w')
  | CreateFill o =>
      Some (Returned (Ok RUnit), mkSys (<[Order.OrderUID o := o]> (cache s)) (repo s))
  | RestoreStart =>
      let '(w', r) := Store.GetAllOrders (repo s) in
      Some (match r with Ok os => RestoreFill os | Err e => Returned (Err e) end,
            mkSys (cache s) w')
  | RestoreFill os =>
      Some (Returned (Ok RUnit), mkSys (insert_each Order.OrderUID os (cache s)) (repo s))
  | Returned _ => None
  end.

(** One thread of the pool takes its next step. *)
Inductive step : Conf -> Conf -> Prop :=
| step_thread s ts i t t' s' :
    ts !! i = Some t -> exec t s = Some (t', s') -> step (s, ts) (s', <[i := t']> ts).

(** A schedule: the indices of the threads that step, in order; an index
    with no runnable thread is skipped. *)
Definition sched_step (c : Conf) (i : nat) : Conf :=
  match c.2 !! i with
  | Some t => match exec t c.1 with Some (t', s') => (s', <[i := t']> c.2) | None => c end
  | None => c
  end.

Definition run_sched (sched : list nat) (c : Conf) : Conf := foldl sched_step c sched.

End steps.

Section sequential.
Context {W : Type} `{OrderRepository W}.

(** A scheduled thread that can step takes a [step]. *)
Lemma sched_step_step (c : Conf) i t t' s' :
  c.2 !! i = Some t -> exec t c.1 = Some (t', s') -> step c (sched_step c i).
Proof.
  destruct c as [s ts]. unfold sched_step. simpl. intros Hi He.
  rewrite Hi, He. by econstructor.
Qed.

Lemma sched_step_star (c : Conf) i : star step c (sched_step c i).
Proof.
  destruct (c.2 !! i) as [t|] eqn:Hi; [|unfold sched_step; rewrite Hi; constructor].
  destruct (exec t c.1) as [[t' s']|] eqn:He;
    [|unfold sched_step; rewrite Hi, He; constructor].
  eapply star_step; [by eapply sched_step_step|constructor].
Qed.

(** Every schedule is an interleaving. *)
Lemma run_sched_star sched (c : Conf) : star step c (run_sched sched c).
Proof.
  unfold run_sched. revert c.
  induction sched as [|i sched IH]; intros c; simpl; eauto using sched_step_star with cache_app.
Qed.
End sequential.

(** ** What survives every interleaving *)

Section with_laws.
Context {W : Type} `{RepositoryLaws W}.

(** What a thread in progress needs of the store's keys [D]: the key it
    is about to cache is stored, and an order about to be saved is
    well-formed. *)
Definition pending_ok (D : gset string) (t : thread) : Prop :=
  match t with
  | GetFill uid _ => uid ∈ D
  | CreateStart o => Order.wf o = true
  | CreateFill o => Order.OrderUID o ∈ D
  | RestoreFill os => Forall (fun o => Order.OrderUID o ∈ D) os
  | _ => True
  end.

Definition keys (s : Sys W) : gset string := dom (stored (repo s)).

(** The invariant of a configuration: the repository's own invariant,
    every cached key a stored key, every thread's pending step safe. *)
Definition inv (c : Conf) : Prop :=
  winv (repo c.1) /\ dom (cache c.1) ⊆ keys c.1 /\ Forall (pending_ok (keys c.1)) c.2.

Lemma pending_ok_mono D D' t : D ⊆ D' -> pending_ok D t -> pending_ok D' t.
Proof.
  intros HD. destruct t; simpl; try done; try set_solver.
  apply Forall_impl. set_solver.
Qed.

(** The store's keys only grow, and the thread that stepped is safe. *)
Lemma exec_inv t (s s' : Sys W) t' :
  winv (repo s) -> dom (cache s) ⊆ keys s -> pending_ok (keys s) t ->
  exec t s = Some (t', s') ->
  winv (repo s') /\ keys s ⊆ keys s' /\ dom (cache s') ⊆ keys s' /\ pending_ok (keys s') t'.
Proof.
  intros Hw Hc Ht. unfold keys in *. destruct t; simpl in *.
  - case_match; intros [= <- <-]; simpl; by repeat split.
  - destruct (Store.GetOrderByUID uid (repo s)) as [w' r] eqn:Hget; intros [= <- <-]; simpl.
    destruct (get_spec _ _ _ _ Hw Hget) as (Hw' & Hst & Ho). rewrite Hst.
    repeat split; try done. destruct r as [o|e]; simpl; [|done].
    apply elem_of_dom. eexists. by apply Ho.
  - intros [= <- <-]; simpl. rewrite dom_insert_L. repeat split; try done; set_solver.
  - destruct (Store.SaveOrder o (repo s)) as [w' r] eqn:Hsave; intros [= <- <-]; simpl.
    destruct (save_spec _ _ _ _ Hw Ht Hsave) as [Hw' Hr]. split; [done|].
    destruct r as [[uid o']|e]; simpl.
    + destruct Hr as (-> & _ & _ & ->). rewrite dom_insert_L. set_solver.
    + rewrite Hr. by repeat split.
  - intros [= <- <-]; simpl. rewrite dom_insert_L. repeat split; try done; set_solver.
  - destruct (Store.GetAllOrders (repo s)) as [w' r] eqn:Hall; intros [= <- <-]; simpl.
    destruct (all_spec _ _ _ Hw Hall) as (Hw' & Hst & Hos). rewrite Hst.
    repeat split; try done. destruct r as [os|e]; simpl; [|done].
    generalize (Hos os eq_refl). apply Forall_impl. intros o Ho. apply elem_of_dom. by eexists.
  - intros [= <- <-]; simpl. repeat split; try done.
    intros k Hk%elem_of_dom. destruct Hk as [o Ho].
    apply insert_each_elem in Ho as [Ho|[<- Hin]].
    + apply Hc, elem_of_dom. by eexists.
    + rewrite Forall_forall in Ht. by apply Ht, list_elem_of_In.
  - done.
Qed.

Lemma step_inv (c c' : Conf) : step c c' -> inv c -> inv c'.
Proof.
  intros [s ts i t t' s' Hi Hexec] (Hw & Hc & Hts); simpl in *.
  pose proof (proj1 (Forall_lookup _ _) Hts i t Hi) as Ht.
  destruct (exec_inv t s s' t' Hw Hc Ht Hexec) as (Hw' & Hmono & Hc' & Ht').
  split; [done|]. split; [done|]. apply Forall_insert; [|done].
  revert Hts. apply Forall_impl. intros x. by apply pending_ok_mono.
Qed.

(** C24: Under every interleaving of the methods' atomic steps, starting
    from a configuration in the invariant (for instance an empty cache and
    calls of well-formed orders), every cached identifier stays an
    identifier of the store: the cache never invents an order. *)
Theorem interleaving_cache_subset (c c' : Conf) :
  inv c -> star step c c' -> dom (cache c'.1) ⊆ keys c'.1.
Proof.
  intros Hc Hs. apply (star_ind_inv step inv c c'); [exact step_inv|done|done].
Qed.
End with_laws.

(** ** Calls on distinct identifiers lose no update *)

Section distinct.
Context {W : Type} `{RepositoryLaws W}.

(** The identifier a call is about. *)
Definition key0 (t : thread) : string :=
  match t with GetStart u => u | CreateStart o => Order.OrderUID o | _ => "" end.

(** Where a call that started as [t0] can be now.  A lookup of [u] only
    ever writes key [u]; an update of [o] is not yet saved, saved but not
    cached, failed, or done with [o] in the cache. *)
Definition tracks (c : gmap string Order.t) (t0 t : thread) : Prop :=
  match t0 with
  | GetStart u =>
      match t with
      | GetStart u' | GetRead u' | GetFill u' _ => u' = u
      | Returned _ => True
      | _ => False
      end
  | CreateStart o =>
      t = CreateStart o \/ t = CreateFill o \/ (exists e, t = Returned (Err e)) \/
      (t = Returned (Ok RUnit) /\ c !! Order.OrderUID o = Some o)
  | _ => False
  end.

(** The calls a run starts with: lookups, and updates of well-formed
    orders that carry their identifier, all on distinct identifiers. *)
Definition distinct_calls (ts0 : list thread) : Prop :=
  NoDup (map key0 ts0) /\
  Forall (fun t0 => match t0 with
                    | GetStart _ => True
                    | CreateStart o => Order.wf o = true /\ Order.OrderUID o <> ""
                    | _ => False
                    end) ts0.

Definition follows (ts0 : list thread) (c : Conf) : Prop :=
  winv (repo c.1) /\ length c.2 = length ts0 /\
  forall i t0 t, ts0 !! i = Some t0 -> c.2 !! i = Some t -> tracks (cache c.1) t0 t.

(** A step of the call started as [t0] writes at most key [key0 t0]. *)
Lemma exec_tracks t0 t (s s' : Sys W) t' :
  winv (repo s) -> (match t0 with CreateStart o => Order.wf o = true /\ Order.OrderUID o <> "" | _ => True end) ->
  tracks (cache s) t0 t -> exec t s = Some (t', s') ->
  winv (repo s') /\ tracks (cache s') t0 t' /\
  forall k, k <> key0 t0 -> cache s' !! k = cache s !! k.
Proof.
  intros Hw Hpre Ht. destruct t0 as [u|u|u o0|o|o0| |os|r]; simpl in Ht; try done.
  - destruct t; simplify_eq; try done; simpl.
    + case_match; intros [= <- <-]; by repeat split.
    + destruct (Store.GetOrderByUID u (repo s)) as [w' [o|e]] eqn:Hget; intros [= <- <-];
        destruct (get_spec _ _ _ _ Hw Hget) as (Hw' & _); by repeat split.
    + intros [= <- <-]. repeat split; [done|]. intros k Hk. simpl. by rewrite lookup_insert_ne.
  - destruct Hpre as [Hwf Huid].
    destruct Ht as [->|[->|[[e ->]|[-> Hc]]]]; simpl; try done.
    + destruct (Store.SaveOrder o (repo s)) as [w' r] eqn:Hsave; intros [= <- <-].
      destruct (save_spec _ _ _ _ Hw Hwf Hsave) as [Hw' Hr]. split; [done|].
      split; [|done]. destruct r as [[uid o']|e]; simpl; [|eauto 10].
      destruct Hr as (_ & _ & Ho' & _). rewrite (Ho' Huid). eauto.
    + intros [= <- <-]. simpl. split; [done|]. split.
      * do 3 right. split; [done|]. apply lookup_insert_eq.
      * intros k Hk. by rewrite lookup_insert_ne.
Qed.

Lemma step_follows ts0 (c c' : Conf) :
  distinct_calls ts0 -> step c c' -> follows ts0 c -> follows ts0 c'.
Proof.
  intros [Hnd Hpre] [s ts i t t' s' Hi Hexec] (Hw & Hlen & Htr); simpl in *.
  destruct (lookup_lt_is_Some_2 ts0 i) as [t0 Hi0].
  { rewrite <- Hlen. apply lookup_lt_is_Some_1. by eexists. }
  pose proof (proj1 (Forall_lookup _ _) Hpre i t0 Hi0) as Hp.
  destruct (exec_tracks t0 t s s' t' Hw) as (Hw' & Ht' & Hother);
    [by destruct t0|by apply (Htr i)|done|].
  split; [done|]. simpl. split; [by rewrite length_insert|].
  intros j u0 u Hj0 Hj. destruct (decide (i = j)) as [<-|Hij].
  { rewrite list_lookup_insert_eq in Hj by (eapply lookup_lt_Some; exact Hi).
    simplify_eq. congruence. }
  rewrite list_lookup_insert_ne in Hj by done.
  specialize (Htr j u0 u Hj0 Hj).
  destruct u0; simpl in *; try done.
  destruct Htr as [?|[?|[?|[? Hc]]]]; [by left|by right; left|by right; right; left|].
  do 3 right. split; [done|]. rewrite Hother; [done|].
  intros Heq. apply Hij. apply (NoDup_lookup (map key0 ts0) i j (key0 t0)); [exact Hnd| |].
  - by rewrite list_lookup_fmap, Hi0.
  - rewrite list_lookup_fmap, Hj0. simpl. by rewrite Heq.
Qed.

(** C25: The spec's concurrency property: lookups and updates on
    pairwise distinct identifiers, interleaved in any way, lose no update.
    Whenever an update's call has returned success, its order is in the
    cache and a lookup of its identifier answers it without touching the
    store. *)
Theorem distinct_creates_not_lost (s : Sys W) ts0 (c : Conf) i o :
  winv (repo s) -> distinct_calls ts0 -> star step (s, ts0) c ->
  ts0 !! i = Some (CreateStart o) -> c.2 !! i = Some (Returned (Ok RUnit)) ->
  orderService.GetOrderByUID (Order.OrderUID o) c.1 = (c.1, Ok (modelToResponse o)).
Proof.
  intros Hw Hd Hstar Hi0 Hi.
  assert (follows ts0 c) as (_ & _ & Htr).
  { apply (star_ind_inv step (follows ts0) (s, ts0) c); [|done|].
    - intros x y. by apply step_follows.
    - split; [done|]. split; [done|]. simpl. intros j t0 t Hj0 Hj. rewrite Hj0 in Hj.
      injection Hj as <-. destruct Hd as [_ Hpre].
      pose proof (proj1 (Forall_lookup _ _) Hpre j t0 Hj0) as Hp.
      destruct t0; simpl in *; try done. by left. }
  destruct (Htr i _ _ Hi0 Hi) as [?|[?|[[? ?]|[_ Hc]]]]; try done.
  by apply GetOrderByUID_hit.
Qed.
End distinct.

(** ** Calls on distinct identifiers keep the cache coherent *)

Section distinct_coherent.
Context {W : Type} `{RepositoryLaws W}.

(** The identifier a call in progress reads or writes, if any. *)
Definition tkey (t : thread) : option string :=
  match t with
  | GetStart u | GetRead u | GetFill u _ => Some u
  | CreateStart o | CreateFill o => Some (Order.OrderUID o)
  | RestoreStart | RestoreFill _ | Returned _ => None
  end.

(** What a call in progress knows of the store [st]: the order a lookup
    is about to cache is the stored one; an update about to be cached was
    written; an update not yet saved is of a well-formed order with an
    identifier.  No restore runs. *)
Definition fill_ok (st : gmap string Order.t) (t : thread) : Prop :=
  match t with
  | GetStart _ | GetRead _ | Returned _ => True
  | GetFill u o => st !! u = Some o
  | CreateStart o => Order.wf o = true /\ Order.OrderUID o <> ""
  | CreateFill o => exists old, st !! Order.OrderUID o = Some (upsert_view old o)
  | RestoreStart | RestoreFill _ => False
  end.

(** No two calls in progress are about the same identifier. *)
Definition keys_apart (ts : list thread) : Prop :=
  forall i j ti tj k, i <> j -> ts !! i = Some ti -> ts !! j = Some tj ->
    tkey ti = Some k -> tkey tj <> Some k.

(** An update of [k] is saved and not yet cached. *)
Definition filling (ts : list thread) (k : string) : Prop :=
  exists i o, ts !! i = Some (CreateFill o) /\ Order.OrderUID o = k.

Definition coh_at (c : gmap string Order.t) (st : gmap string Order.t) (k : string) : Prop :=
  forall o, c !! k = Some o -> exists old, st !! k = Some (upsert_view old o).

(** The cache is coherent at every identifier but those whose update is
    between its save and its cache write. *)
Definition dcoh (c : Conf) : Prop :=
  winv (repo c.1) /\ keys_apart c.2 /\ Forall (fill_ok (stored (repo c.1))) c.2 /\
  forall k, filling c.2 k \/ coh_at (cache c.1) (stored (repo c.1)) k.

Lemma fill_ok_ext st st' t :
  (forall k, tkey t = Some k -> st' !! k = st !! k) -> fill_ok st t -> fill_ok st' t.
Proof. destruct t; simpl; intros Hk; rewrite ?Hk; done. Qed.

(** A step of a call about [u] changes the store and the cache at [u]
    only, and leaves [u] coherent, or unchanged, or being filled. *)
Lemma exec_key t (s s' : Sys W) t' u :
  winv (repo s) -> fill_ok (stored (repo s)) t -> tkey t = Some u -> exec t s = Some (t', s') ->
  winv (repo s') /\ (tkey t' = Some u \/ tkey t' = None) /\ fill_ok (stored (repo s')) t' /\
  (forall k, k <> u -> stored (repo s') !! k = stored (repo s) !! k /\ cache s' !! k = cache s !! k) /\
  ((exists o, t' = CreateFill o) \/ coh_at (cache s') (stored (repo s')) u \/
   ((forall o, t <> CreateFill o) /\ cache s' !! u = cache s !! u /\
    stored (repo s') !! u = stored (repo s) !! u)).
Proof.
  intros Hw Hok Hu. destruct t as [v|v|v o|o|o| |os|r]; simpl in Hu, Hok; simplify_eq/=; try done.
  - case_match; intros [= <- <-]; split_and!; auto; by do 2 right.
  - destruct (Store.GetOrderByUID u (repo s)) as [w' r] eqn:Hget; intros [= <- <-]; simpl.
    destruct (get_spec _ _ _ _ Hw Hget) as (Hw' & Hst & Ho). rewrite Hst.
    destruct r as [o|e]; simpl; split_and!; auto; by do 2 right.
  - intros [= <- <-]; simpl. split_and!; auto.
    + intros k Hk. by rewrite lookup_insert_ne.
    + right; left. intros o'. rewrite lookup_insert_eq. intros [= <-]. exists None.
      by rewrite upsert_view_new.
  - destruct Hok as [Hwf Huid].
    destruct (Store.SaveOrder o (repo s)) as [w' r] eqn:Hsave; intros [= <- <-]; simpl.
    destruct (save_spec _ _ _ _ Hw Hwf Hsave) as [Hw' Hr].
    destruct r as [[uid o']|e]; simpl.
    + destruct Hr as (-> & _ & Ho' & Hst). rewrite (Ho' Huid) in *. rewrite Hst.
      split_and!; [done|by left|simpl; rewrite lookup_insert_eq; eauto| |by left; eauto].
      intros k Hk. by rewrite lookup_insert_ne.
    + rewrite Hr. split_and!; auto; by do 2 right.
  - intros [= <- <-]; simpl. split_and!; auto.
    + intros k Hk. by rewrite lookup_insert_ne.
    + right; left. intros o'. rewrite lookup_insert_eq. by intros [= <-].
Qed.

Lemma filling_other ts i t t' k :
  ts !! i = Some t -> (forall u, tkey t = Some u -> u <> k) ->
  (forall u, tkey t' = Some u -> u <> k) ->
  filling (<[i := t']> ts) k <-> filling ts k.
Proof.
  intros Hi Ht Ht'. split.
  - intros (j & o & Hj & <-). destruct (decide (i = j)) as [<-|Hij].
    + rewrite list_lookup_insert_eq in Hj by (eapply lookup_lt_Some; eauto).
      injection Hj as ->. by destruct (Ht' _ eq_refl).
    + rewrite list_lookup_insert_ne in Hj by done. by exists j, o.
  - intros (j & o & Hj & <-). destruct (decide (i = j)) as [<-|Hij].
    + rewrite Hj in Hi. injection Hi as <-. by destruct (Ht _ eq_refl).
    + exists j, o. by rewrite list_lookup_insert_ne.
Qed.

Lemma filling_self ts i t k :
  keys_apart ts -> ts !! i = Some t -> tkey t = Some k -> (forall o, t <> CreateFill o) ->
  ~ filling ts k.
Proof.
  intros Hap Hi Ht Hnf (j & o & Hj & <-). destruct (decide (i = j)) as [<-|Hij].
  - rewrite Hj in Hi. injection Hi as <-. by apply (Hnf o).
  - by apply (Hap i j t (CreateFill o) (Order.OrderUID o)).
Qed.
Lemma keys_apart_insert ts i t t' :
  keys_apart ts -> ts !! i = Some t -> (tkey t' = tkey t \/ tkey t' = None) ->
  keys_apart (<[i := t']> ts).
Proof.
  intros Hap Hi Ht' a b ta tb k Hab Ha Hb Hk.
  destruct (decide (a = i)) as [->|Hai]; [|destruct (decide (b = i)) as [->|Hbi]].
  - rewrite list_lookup_insert_eq in Ha by (eapply lookup_lt_Some; eauto). injection Ha as <-.
    rewrite list_lookup_insert_ne in Hb by done.
    destruct Ht' as [Ht'|Ht']; rewrite Ht' in Hk; [|done]. exact (Hap i b t tb k Hab Hi Hb Hk).
  - rewrite list_lookup_insert_ne in Ha by done.
    rewrite list_lookup_insert_eq in Hb by (eapply lookup_lt_Some; eauto). injection Hb as <-.
    destruct Ht' as [Ht'|Ht']; rewrite Ht'; [exact (Hap a i ta t k Hab Ha Hi Hk)|done].
  - rewrite list_lookup_insert_ne in Ha, Hb by done. exact (Hap a b ta tb k Hab Ha Hb Hk).
Qed.

Lemma step_dcoh (c c' : Conf) : step c c' -> dcoh c -> dcoh c'.
Proof.
  intros [s ts i t t' s' Hi Hexec] (Hw & Hap & Hok & Hcoh); simpl in *.
  pose proof (proj1 (Forall_lookup _ _) Hok i t Hi) as Ht.
  assert (exists u, tkey t = Some u) as [u Hu] by (destruct t; simpl in *; by eauto).
  destruct (exec_key t s s' t' u Hw Ht Hu Hexec) as (Hw' & Hk' & Hok' & Hoth & Hat).
  assert (forall v, tkey t' = Some v -> v = u) as Hk''.
  { intros v Hv. destruct Hk' as [Hk'|Hk']; rewrite Hk' in Hv; congruence. }
  unfold dcoh; simpl. split_and!; [done| |..].
  - apply (keys_apart_insert ts i t); [done..|]. rewrite Hu. tauto.
  - apply Forall_lookup. intros j tj Hj. destruct (decide (i = j)) as [<-|Hij].
    + rewrite list_lookup_insert_eq in Hj by (eapply lookup_lt_Some; eauto). by injection Hj as <-.
    + rewrite list_lookup_insert_ne in Hj by done.
      apply (fill_ok_ext (stored (repo s))); [|exact (proj1 (Forall_lookup _ _) Hok j tj Hj)].
      intros k Hk. apply Hoth. intros ->. exact (Hap j i tj t u (not_eq_sym Hij) Hj Hi Hk Hu).
  - intros k. destruct (decide (k = u)) as [->|Hku].
    + destruct Hat as [[o ->]|[Hc|(Hnf & Hc & Hs)]]; [left|by right|].
      * exists i, o. split; [apply list_lookup_insert_eq; by eapply lookup_lt_Some|].
        by apply Hk''.
      * destruct (Hcoh u) as [Hf|Hc0]; [by destruct (filling_self ts i t u Hap Hi Hu Hnf)|].
        right. intros o. rewrite Hc, Hs. apply Hc0.
    + destruct (Hoth k Hku) as [Hs Hc].
      rewrite (filling_other ts i t t' k Hi); [|intros v Hv; congruence|intros v ->%Hk''; congruence].
      destruct (Hcoh k) as [Hf|Hc0]; [by left|right]. intros o. rewrite Hc, Hs. apply Hc0.
Qed.

(** Calls on distinct identifiers start in the invariant. *)
Lemma distinct_calls_dcoh (s : Sys W) ts0 : coherent s -> distinct_calls ts0 -> dcoh (s, ts0).
Proof.
  intros [Hw Hc] [Hnd Hpre]. unfold dcoh; simpl. split_and!; [done| | |].
  - intros i j ti tj k Hij Hi Hj Hk Hk'.
    assert (forall t x, ts0 !! x = Some t -> tkey t = Some k -> key0 t = k) as Hkey.
    { intros t x Hx Ht. pose proof (proj1 (Forall_lookup _ _) Hpre x t Hx) as Hp.
      destruct t; simpl in *; by simplify_eq. }
    apply Hij, (NoDup_lookup (map key0 ts0) i j k Hnd);
      rewrite list_lookup_fmap; [rewrite Hi|rewrite Hj]; simpl; f_equal; eauto.
  - revert Hpre. apply Forall_impl. by intros [] ?.
  - intros k. right. intros o Ho. exact (Hc k o Ho).
Qed.

(** Once every call has returned, no identifier is being filled. *)
Lemma dcoh_returned (c : Conf) :
  dcoh c -> Forall (fun t => exists r, t = Returned r) c.2 -> coherent c.1.
Proof.
  intros (Hw & _ & _ & Hcoh) Hret. split; [done|]. intros k o Ho.
  destruct (Hcoh k) as [(i & o' & Hi & _)|Hc]; [|by apply Hc].
  destruct (proj1 (Forall_lookup _ _) Hret i _ Hi) as [r ?]. discriminate.
Qed.

(** Calls on pairwise distinct identifiers, interleaved in any way from a
    coherent state, leave it coherent once they have all returned. *)
Lemma distinct_calls_coherent_atomic (s : Sys W) ts0 (c : Conf) :
  coherent s -> distinct_calls ts0 -> star step (s, ts0) c ->
  Forall (fun t => exists r, t = Returned r) c.2 -> coherent c.1.
Proof.
  intros Hs Hd Hstar. apply dcoh_returned.
  apply (star_ind_inv step dcoh (s, ts0) c); [exact step_dcoh|done|by apply distinct_calls_dcoh].
Qed.
End distinct_coherent.

(** ** Runs *)

Definition v1 : Order.t := sample "A1" "T1" "".
Definition v2 : Order.t := sample "A1" "T2" "".

(** [A1] is stored as [v1] and not cached; one request reads [A1] while a
    message updates it to [v2]. *)
Definition race0 : @Conf DB :=
  (mkSys ∅ (healthy (PgRepo.upsert (PgRepo.order_row v1) ∅)), [GetStart "A1"; CreateStart v2]).

(** The request misses and reads [v1] from the store; the update is saved
    and cached; then the request writes its [v1] into the cache. *)
Definition race_sched : list nat := [0; 0; 1; 1; 0].

Lemma interleaving_cache_subset_witness :
  dom (cache (run_sched race_sched race0).1) ⊆ keys (run_sched race_sched race0).1.
Proof.
  apply (interleaving_cache_subset race0); [|apply run_sched_star].
  split; [keyed_db|]. split; [simpl; rewrite dom_empty_L; set_solver|].
  repeat constructor.
Defined.

Definition tsD : list thread := [GetStart "Z1"; CreateStart (sample "B1" "T1" "")].

Lemma tsD_distinct : distinct_calls tsD.
Proof.
  split; [apply (bool_decide_eq_true_1 (NoDup (map key0 tsD))); vm_compute; reflexivity|].
  constructor; [exact I|]. constructor; [split; [vm_compute; reflexivity|discriminate]|constructor].
Qed.

Lemma distinct_creates_not_lost_witness :
  let c := run_sched [1; 0; 1; 0] (s0, tsD) in
  orderService.GetOrderByUID "B1" c.1 = (c.1, Ok (modelToResponse (sample "B1" "T1" ""))).
Proof.
  apply (distinct_creates_not_lost s0 tsD _ 1 (sample "B1" "T1" "")).
  - keyed_db.
  - exact tsD_distinct.
  - apply run_sched_star.
  - reflexivity.
  - vm_compute. reflexivity.
Defined.
