(* ===== verification/CacheMu.v ===== *)
(** * [cacheMu]: the service's methods step by step under the RWMutex

    [Interleaving] takes each critical section of [cacheMu] as one atomic
    step.  Here the lock is explicit: a thread calls [RLock] or [Lock],
    which blocks while the mutex is held in a conflicting mode, runs the
    body of its critical section one statement at a time (in
    [RestoreCacheFromDB], one map write per iteration of the loop), and
    calls [RUnlock] or [Unlock] (the deferred one in
    [RestoreCacheFromDB]).  The mutex's state is who holds it: the
    readers between [RLock] and [RUnlock], the writer between [Lock] and
    [Unlock].  [RLock] succeeds when no thread holds the write lock,
    [Lock] when no thread holds the mutex at all.  Go's [RWMutex] also
    makes a new reader wait behind a waiting writer; that only removes
    interleavings, so what is proved here for every interleaving holds
    for Go's.

    A lock-level configuration is mapped to an atomic one ([abs]): each
    thread to the atomic step it is at, a thread inside its critical
    section to the point after it, and the cache to the cache with the
    writes still pending in [RestoreCacheFromDB]'s loop done.  Every
    lock-level step is then an atomic step or leaves the image unchanged
    (a stutter), which is what justifies the atomic sections.

    Through the simulation, calls on pairwise distinct identifiers (the
    handlers' lookups and the partition loops' updates) keep the cache
    coherent.  On one identifier they do not: a lookup's read-through
    fill, or an update's cache write, can land after a newer update has
    been saved and cached; both races are run here statement by
    statement, for every pair of versions. *)

From S2P Require Import Prelude Model Json Store Response Service System Scenarios Interleaving.

(** A call in progress, at its next statement. *)
Inductive lthread :=
| LGetStart (uid : string)                     (** [s.cacheMu.RLock()] *)
| LGetRead (uid : string)                      (** holding: [s.cache[orderUID]] *)
| LGetRUnlock (uid : string) (hit : option Order.t)  (** holding: [RUnlock()] *)
| LGetStore (uid : string)                     (** [s.repo.GetOrderByUID] *)
| LGetLock (uid : string) (o : Order.t)        (** [s.cacheMu.Lock()] *)
| LGetWrite (uid : string) (o : Order.t)       (** holding: [s.cache[orderUID] = order] *)
| LGetUnlock (uid : string) (o : Order.t)      (** holding: [Unlock()] *)
| LCreateStart (o : Order.t)                   (** [s.repo.SaveOrder] *)
| LCreateLock (o : Order.t)                    (** [s.cacheMu.Lock()] *)
| LCreateWrite (o : Order.t)                   (** holding: [s.cache[order.OrderUID] = order] *)
| LCreateUnlock (o : Order.t)                  (** holding: [Unlock()] *)
| LRestoreStart                                (** [s.repo.GetAllOrders] *)
| LRestoreLock (os : list Order.t)             (** [s.cacheMu.Lock()] *)
| LRestoreLoop (rest : list Order.t)           (** holding: the loop, then the deferred [Unlock] *)
| LReturned (r : result repo_error reply).

Definition holds_read (t : lthread) : bool :=
  match t with LGetRead _ | LGetRUnlock _ _ => true | _ => false end.

Definition holds_write (t : lthread) : bool :=
  match t with
  | LGetWrite _ _ | LGetUnlock _ _ | LCreateWrite _ | LCreateUnlock _ | LRestoreLoop _ => true
  | _ => false
  end.

(** [RLock] and [Lock] may proceed. *)
Definition can_rlock (ts : list lthread) : bool := forallb (fun t => negb (holds_write t)) ts.
Definition can_lock (ts : list lthread) : bool :=
  forallb (fun t => negb (holds_read t || holds_write t)) ts.

Section lsteps.
Context {W : Type} `{OrderRepository W}.

Definition LConf : Type := Sys W * list lthread.

(** The next statement of a thread among [ts]; [None] when it is
    blocked on the mutex or has returned. *)
Definition lexec (ts : list lthread) (t : lthread) (s : Sys W) : option (lthread * Sys W) :=
  match t with
  | LGetStart uid => if can_rlock ts then Some (LGetRead uid, s) else None
  | LGetRead uid => Some (LGetRUnlock uid (cache s !! uid), s)
  | LGetRUnlock uid (Some o) => Some (LReturned (Ok (RResp (modelToResponse o))), s)
  | LGetRUnlock uid None => Some (LGetStore uid, s)
  | LGetStore uid =>
      let '(w', r) := Store.GetOrderByUID uid (repo s) in
      Some (match r with Ok o => LGetLock uid o | Err e => LReturned (Err e) end,
            mkSys (cache s) w')
  | LGetLock uid o => if can_lock ts then Some (LGetWrite uid o, s) else None
  | LGetWrite uid o => Some (LGetUnlock uid o, mkSys (<[uid := o]> (cache s)) (repo s))
  | LGetUnlock uid o => Some (LReturned (Ok (RResp (modelToResponse o))), s)
  | LCreateStart o =>
      let '(w', r) := Store.SaveOrder o (repo s) in
      Some (match r with Ok (_, o') => LCreateLock o' | Err e => LReturned (Err e) end,
            mkSys (cache s) w')
  | LCreateLock o => if can_lock ts then Some (LCreateWrite o, s) else None
  | LCreateWrite o =>
      Some (LCreateUnlock o, mkSys (<[Order.OrderUID o := o]> (cache s)) (repo s))
  | LCreateUnlock o => Some (LReturned (Ok RUnit), s)
  | LRestoreStart =>
      let '(w', r) := Store.GetAllOrders (repo s) in
      Some (match r with Ok os => LRestoreLock os | Err e => LReturned (Err e) end,
            mkSys (cache s) w')
  | LRestoreLock os => if can_lock ts then Some (LRestoreLoop os, s) else None
  | LRestoreLoop (o :: rest) =>
      Some (LRestoreLoop rest, mkSys (<[Order.OrderUID o := o]> (cache s)) (repo s))
  | LRestoreLoop [] => Some (LReturned (Ok RUnit), s)
  | LReturned _ => None
  end.

Inductive lstep : LConf -> LConf -> Prop :=
| lstep_thread s ts i t t' s' :
    ts !! i = Some t -> lexec ts t s = Some (t', s') -> lstep (s, ts) (s', <[i := t']> ts).

(** A schedule: the indices of the threads that step, in order; a
    blocked, returned or missing thread is skipped. *)
Definition lsched_step (c : LConf) (i : nat) : LConf :=
  match c.2 !! i with
  | Some t => match lexec c.2 t c.1 with Some (t', s') => (s', <[i := t']> c.2) | None => c end
  | None => c
  end.

Definition lrun_sched (sched : list nat) (c : LConf) : LConf := foldl lsched_step c sched.

(** Termination measure: the stage a thread is at (statements left,
    counting the restore loop as one), and the writes left in the loop. *)
Definition lstage (t : lthread) : nat :=
  match t with
  | LGetStart _ => 7
  | LGetRead _ => 6
  | LGetRUnlock _ _ => 5
  | LGetStore _ | LCreateStart _ => 4
  | LGetLock _ _ | LCreateLock _ | LRestoreStart => 3
  | LGetWrite _ _ | LCreateWrite _ | LRestoreLock _ => 2
  | LGetUnlock _ _ | LCreateUnlock _ | LRestoreLoop _ => 1
  | LReturned _ => 0
  end.

Definition lwork (t : lthread) : nat :=
  match t with LRestoreLock os => length os | LRestoreLoop rest => length rest | _ => 0 end.

Definition lreturned (t : lthread) : bool := match t with LReturned _ => true | _ => false end.
End lsteps.

(** ** The image in the atomic semantics *)

Definition abs_thread (t : lthread) : thread :=
  match t with
  | LGetStart uid | LGetRead uid => GetStart uid
  | LGetRUnlock uid (Some o) => Returned (Ok (RResp (modelToResponse o)))
  | LGetRUnlock uid None | LGetStore uid => GetRead uid
  | LGetLock uid o | LGetWrite uid o => GetFill uid o
  | LGetUnlock uid o => Returned (Ok (RResp (modelToResponse o)))
  | LCreateStart o => CreateStart o
  | LCreateLock o | LCreateWrite o => CreateFill o
  | LCreateUnlock o => Returned (Ok RUnit)
  | LRestoreStart => RestoreStart
  | LRestoreLock os => RestoreFill os
  | LRestoreLoop _ => Returned (Ok RUnit)
  | LReturned r => Returned r
  end.

(** The writes a thread inside the restore loop has still to do. *)
Definition pend (t : lthread) (c : gmap string Order.t) : gmap string Order.t :=
  match t with LRestoreLoop rest => insert_each Order.OrderUID rest c | _ => c end.

Definition pending (ts : list lthread) (c : gmap string Order.t) : gmap string Order.t :=
  foldr pend c ts.

Definition abs {W} (c : @LConf W) : Conf :=
  (mkSys (pending c.2 (cache c.1)) (repo c.1), abs_thread <$> c.2).

(** The write lock excludes every other holder. *)
Definition excl (ts : list lthread) : Prop :=
  forall i j ti tj, i <> j -> ts !! i = Some ti -> ts !! j = Some tj ->
    holds_write ti = true -> holds_read tj = false /\ holds_write tj = false.

(** ** Who holds the mutex *)

Lemma pend_id t c : holds_write t = false -> pend t c = c.
Proof. by destruct t. Qed.

Lemma can_lock_free ts j tj :
  can_lock ts = true -> ts !! j = Some tj -> holds_read tj = false /\ holds_write tj = false.
Proof.
  intros Hc Hj. pose proof (forallb_lookup_true _ _ _ _ Hc Hj) as Ht.
  by apply negb_true_iff, orb_false_iff in Ht.
Qed.

Lemma can_rlock_free ts j tj : can_rlock ts = true -> ts !! j = Some tj -> holds_write tj = false.
Proof.
  intros Hc Hj. pose proof (forallb_lookup_true _ _ _ _ Hc Hj) as Ht.
  by apply negb_true_iff in Ht.
Qed.

Lemma can_lock_rlock ts : can_lock ts = true -> can_rlock ts = true.
Proof.
  unfold can_lock, can_rlock. induction ts as [|t ts IH]; simpl; [done|].
  intros [H1 H2]%andb_prop. apply andb_true_intro. split; [|by apply IH].
  revert H1. by destruct (holds_read t), (holds_write t).
Qed.

(** Calls that hold nothing, for instance calls not started yet. *)
Lemma can_lock_excl ts : can_lock ts = true -> excl ts.
Proof.
  intros Hc i j ti tj _ Hi _ Hw. by rewrite (proj2 (can_lock_free _ _ _ Hc Hi)) in Hw.
Qed.

(** A holder of the mutex, for reading or writing, excludes writers. *)
Lemma excl_holder ts i t :
  excl ts -> ts !! i = Some t -> holds_read t || holds_write t = true ->
  forall j tj, j <> i -> ts !! j = Some tj -> holds_write tj = false.
Proof.
  intros Hx Hi Ht j tj Hji Hj. destruct (holds_write tj) eqn:Hw; [|done].
  destruct (Hx j i tj t Hji Hj Hi Hw) as [Hr Hw']. by rewrite Hr, Hw' in Ht.
Qed.

(** ** The writes still pending *)

Lemma pending_none ts c :
  (forall j tj, ts !! j = Some tj -> holds_write tj = false) -> pending ts c = c.
Proof.
  unfold pending. induction ts as [|x ts IH]; intros Hts; [done|]. simpl.
  rewrite IH by (intros j tj Hj; exact (Hts (S j) tj Hj)).
  apply pend_id, (Hts 0). done.
Qed.

Lemma pending_others ts i t c :
  ts !! i = Some t ->
  (forall j tj, j <> i -> ts !! j = Some tj -> holds_write tj = false) ->
  pending ts c = pend t c.
Proof.
  unfold pending. revert i. induction ts as [|x ts IH]; intros [|i] Hi Hoth; simplify_eq/=.
  - f_equal. apply pending_none. intros j tj Hj. by apply (Hoth (S j)).
  - rewrite pend_id by (by apply (Hoth 0)).
    apply (IH i); [done|]. intros j tj Hji Hj. apply (Hoth (S j)); [congruence|done].
Qed.

Lemma pending_insert_others ts i t t' c :
  ts !! i = Some t ->
  (forall j tj, j <> i -> ts !! j = Some tj -> holds_write tj = false) ->
  pending (<[i := t']> ts) c = pend t' c.
Proof.
  intros Hi Hoth. apply (pending_others _ i).
  - apply list_lookup_insert_eq. by eapply lookup_lt_Some.
  - intros j tj Hji. rewrite list_lookup_insert_ne by done. by apply Hoth.
Qed.

Lemma pending_insert_same ts i t t' c :
  ts !! i = Some t -> (forall c, pend t' c = pend t c) ->
  pending (<[i := t']> ts) c = pending ts c.
Proof.
  unfold pending. revert i. induction ts as [|x ts IH]; intros [|i] Hi Hp; simplify_eq/=.
  - by rewrite Hp.
  - by rewrite (IH i).
Qed.

(** ** Each lock-level step is an atomic step or a stutter *)

Section simulation.
Context {W : Type} `{OrderRepository W}.

Ltac holder Hx Hi := exact (excl_holder _ _ _ Hx Hi eq_refl).
Ltac lock_free Hc := intros ?j ?tj _ ?Hj; exact (proj2 (can_lock_free _ _ _ Hc Hj)).
Ltac stutter Hi := left; split_and!; [done|done|by apply (pending_insert_same _ _ _ _ _ Hi)].

Lemma lexec_sim ts i t t' (s s' : Sys W) :
  excl ts -> ts !! i = Some t -> lexec ts t s = Some (t', s') ->
  (abs_thread t' = abs_thread t /\ repo s' = repo s /\
   pending (<[i := t']> ts) (cache s') = pending ts (cache s)) \/
  exec (abs_thread t) (mkSys (pending ts (cache s)) (repo s)) =
    Some (abs_thread t', mkSys (pending (<[i := t']> ts) (cache s')) (repo s')).
Proof.
  intros Hx Hi.
  destruct t as [uid|uid|uid [o|]|uid|uid o|uid o|uid o|o|o|o|o| |os|[|o rest]|r]; simpl.
  - case_match; intros [= <- <-]. stutter Hi.
  - intros [= <- <-]. right. simpl.
    rewrite (pending_others _ _ _ _ Hi) by holder Hx Hi.
    rewrite (pending_insert_others _ _ _ _ _ Hi) by holder Hx Hi.
    simpl. by destruct (cache s !! uid).
  - intros [= <- <-]. stutter Hi.
  - intros [= <- <-]. stutter Hi.
  - destruct (Store.GetOrderByUID uid (repo s)) as [w' [o|e]] eqn:E; intros [= <- <-];
      right; simpl; by rewrite (pending_insert_same _ _ _ _ _ Hi).
  - destruct (can_lock ts) eqn:Hc; [|done]; intros [= <- <-]. stutter Hi.
  - intros [= <- <-]. right. simpl.
    rewrite (pending_others _ _ _ _ Hi) by holder Hx Hi.
    by rewrite (pending_insert_others _ _ _ _ _ Hi) by holder Hx Hi.
  - intros [= <- <-]. stutter Hi.
  - destruct (Store.SaveOrder o (repo s)) as [w' [[u o']|e]] eqn:E; intros [= <- <-];
      right; simpl; by rewrite (pending_insert_same _ _ _ _ _ Hi).
  - destruct (can_lock ts) eqn:Hc; [|done]; intros [= <- <-]. stutter Hi.
  - intros [= <- <-]. right. simpl.
    rewrite (pending_others _ _ _ _ Hi) by holder Hx Hi.
    by rewrite (pending_insert_others _ _ _ _ _ Hi) by holder Hx Hi.
  - intros [= <- <-]. stutter Hi.
  - destruct (Store.GetAllOrders (repo s)) as [w' [os|e]] eqn:E; intros [= <- <-];
      right; simpl; by rewrite (pending_insert_same _ _ _ _ _ Hi).
  - destruct (can_lock ts) eqn:Hc; [|done]; intros [= <- <-]. right. simpl.
    rewrite (pending_others _ _ _ _ Hi) by lock_free Hc.
    by rewrite (pending_insert_others _ _ _ _ _ Hi) by lock_free Hc.
  - intros [= <- <-]. left. split_and!; [done|done|].
    rewrite (pending_others _ _ _ _ Hi) by holder Hx Hi.
    by rewrite (pending_insert_others _ _ _ _ _ Hi) by holder Hx Hi.
  - intros [= <- <-]. left. split_and!; [done|done|].
    rewrite (pending_others _ _ _ _ Hi) by holder Hx Hi.
    by rewrite (pending_insert_others _ _ _ _ _ Hi) by holder Hx Hi.
  - done.
Qed.
End simulation.

(** ** The write lock stays exclusive *)

Section exclusion.
Context {W : Type} `{OrderRepository W}.

(** A thread comes to hold the mutex only through [RLock] or [Lock],
    when the mutex allows it. *)
Lemma lexec_acquire ts t (s s' : Sys W) t' :
  lexec ts t s = Some (t', s') ->
  (holds_write t' = true -> holds_write t = true \/ can_lock ts = true) /\
  (holds_read t' = true -> holds_read t = true \/ can_rlock ts = true).
Proof.
  destruct t as [uid|uid|uid [o|]|uid|uid o|uid o|uid o|o|o|o|o| |os|[|o rest]|r]; simpl;
    repeat case_match; intros [= <- _]; simpl; split; intros; by auto.
Qed.

Lemma excl_insert ts i t t' (s s' : Sys W) :
  excl ts -> ts !! i = Some t -> lexec ts t s = Some (t', s') -> excl (<[i := t']> ts).
Proof.
  intros Hx Hi He. destruct (lexec_acquire _ _ _ _ _ He) as [Hw Hr].
  assert (i < length ts) as Hlen by (eapply lookup_lt_Some; eauto).
  intros a b ta tb Hab Ha Hb Hta.
  destruct (decide (a = i)) as [->|Hai]; [|destruct (decide (b = i)) as [->|Hbi]].
  - rewrite list_lookup_insert_eq in Ha by done. injection Ha as <-.
    rewrite list_lookup_insert_ne in Hb by done.
    destruct (Hw Hta) as [Ht|Hc]; [exact (Hx i b t tb Hab Hi Hb Ht)|exact (can_lock_free _ _ _ Hc Hb)].
  - rewrite list_lookup_insert_ne in Ha by done.
    rewrite list_lookup_insert_eq in Hb by done. injection Hb as <-.
    destruct (Hx a i ta t Hai Ha Hi Hta) as [Hr0 Hw0]. split.
    + destruct (holds_read t') eqn:E; [|done]. destruct (Hr eq_refl) as [Hr1|Hc]; [congruence|].
      by rewrite (can_rlock_free _ _ _ Hc Ha) in Hta.
    + destruct (holds_write t') eqn:E; [|done]. destruct (Hw eq_refl) as [Hw1|Hc]; [congruence|].
      by rewrite (proj2 (can_lock_free _ _ _ Hc Ha)) in Hta.
  - rewrite list_lookup_insert_ne in Ha, Hb by done. exact (Hx a b ta tb Hab Ha Hb Hta).
Qed.

Lemma lstep_sim (c c' : LConf) :
  lstep c c' -> excl c.2 -> excl c'.2 /\ (abs c = abs c' \/ step (abs c) (abs c')).
Proof.
  intros [s ts i t t' s' Hi He] Hx. simpl in *. split; [by eapply excl_insert|].
  unfold abs; simpl. rewrite list_fmap_insert.
  destruct (lexec_sim ts i t t' s s' Hx Hi He) as [(Ht & Hr & Hp) | Hex].
  - left. rewrite Hr, Hp, Ht, list_insert_id; [done|]. by rewrite list_lookup_fmap, Hi.
  - right. econstructor; [by rewrite list_lookup_fmap, Hi|exact Hex].
Qed.

(** Simulation, extended to sequences of steps. *)
Lemma lstar_sim (c c' : LConf) :
  star lstep c c' -> excl c.2 -> excl c'.2 /\ star step (abs c) (abs c').
Proof.
  induction 1 as [c|c1 c2 c3 H12 H23 IH]; intros Hx; [split; [done|constructor]|].
  destruct (lstep_sim _ _ H12 Hx) as [Hx2 Hs]. destruct (IH Hx2) as [Hx3 Hst].
  split; [done|]. destruct Hs as [-> | Hs]; [done|]. by eapply star_step.
Qed.
End exclusion.

Lemma pend_dom t c : dom c ⊆ dom (pend t c).
Proof.
  destruct t; try done. intros k. rewrite !elem_of_dom. intros [x Hx].
  simpl. rewrite lookup_insert_each. case_match; eauto.
Qed.

Lemma pending_dom ts c : dom c ⊆ dom (pending ts c).
Proof. unfold pending. induction ts as [|t ts IH]; simpl; [done|]. etrans; [exact IH|apply pend_dom]. Qed.

(** ** No call waits forever on [cacheMu] *)

Section progress.
Context {W : Type} `{OrderRepository W}.

Definition lpool_stage (ts : list lthread) : nat := sum_list_with lstage ts.
Definition lpool_work (ts : list lthread) : nat := sum_list_with lwork ts.

Lemma lexec_measure ts t (s s' : Sys W) t' :
  lexec ts t s = Some (t', s') ->
  lstage t' < lstage t \/ (lstage t' = lstage t /\ lwork t' < lwork t).
Proof.
  destruct t as [uid|uid|uid [o|]|uid|uid o|uid o|uid o|o|o|o|o| |os|[|o rest]|r]; simpl;
    repeat case_match; intros [= <- _]; simpl; lia.
Qed.

(** A holder of the mutex is never blocked. *)
Lemma holder_steps ts t (s : Sys W) :
  holds_read t || holds_write t = true -> exists t' s', lexec ts t s = Some (t', s').
Proof.
  destruct t as [uid|uid|uid [o|]|uid|uid o|uid o|uid o|o|o|o|o| |os|[|o rest]|r];
    simpl; try done; eauto.
Qed.

(** When nobody holds the mutex, every call in progress can step. *)
Lemma free_steps ts t (s : Sys W) :
  can_lock ts = true -> lreturned t = false -> exists t' s', lexec ts t s = Some (t', s').
Proof.
  intros Hc Ht. pose proof (can_lock_rlock ts Hc) as Hr.
  destruct t as [uid|uid|uid [o|]|uid|uid o|uid o|uid o|o|o|o|o| |os|[|o rest]|r];
    simpl; rewrite ?Hc, ?Hr; repeat case_match; try done; eauto.
Qed.

Lemma lprogress (c : LConf) :
  forallb lreturned c.2 = false ->
  exists c', lstep c c' /\
    (lpool_stage c'.2 < lpool_stage c.2 \/
     (lpool_stage c'.2 = lpool_stage c.2 /\ lpool_work c'.2 < lpool_work c.2)).
Proof.
  destruct c as [s ts]. simpl. intros Hall.
  assert (exists i t t' s', ts !! i = Some t /\ lexec ts t s = Some (t', s'))
    as (i & t & t' & s' & Hi & He).
  { destruct (can_lock ts) eqn:Hc.
    - destruct (forallb_false_lookup _ _ Hall) as (i & t & Hi & Ht).
      destruct (free_steps ts t s Hc Ht) as (t' & s' & He). eauto 10.
    - destruct (forallb_false_lookup _ _ Hc) as (i & t & Hi & Ht).
      apply negb_false_iff in Ht.
      destruct (holder_steps ts t s Ht) as (t' & s' & He). eauto 10. }
  exists (s', <[i := t']> ts). split; [by econstructor|]. simpl. unfold lpool_stage, lpool_work.
  pose proof (sum_list_with_insert lstage ts i t t' Hi).
  pose proof (sum_list_with_insert lwork ts i t t' Hi).
  destruct (lexec_measure _ _ _ _ _ He) as [?|[? ?]]; lia.
Qed.
End progress.

Section runs.
Context {W : Type} `{OrderRepository W}.

Lemma lsched_step_star (c : @LConf W) i : star lstep c (lsched_step c i).
Proof.
  destruct c as [s ts]. unfold lsched_step. simpl.
  destruct (ts !! i) as [t|] eqn:Hi; [|constructor].
  destruct (lexec ts t s) as [[t' s']|] eqn:He; [|constructor].
  eapply star_step; [by econstructor|constructor].
Qed.

Lemma lrun_sched_star sched (c : @LConf W) : star lstep c (lrun_sched sched c).
Proof.
  unfold lrun_sched. revert c.
  induction sched as [|i sched IH]; intros c; simpl; eauto using lsched_step_star with cache_app.
Qed.

Lemma lreturn_all n m (c : @LConf W) :
  lpool_stage c.2 = n -> lpool_work c.2 = m ->
  exists c', star lstep c c' /\ forallb lreturned c'.2 = true.
Proof.
  revert c. revert n m.
  apply (lex_ind (fun n m => forall c : LConf, lpool_stage c.2 = n -> lpool_work c.2 = m ->
                    exists c', star lstep c c' /\ forallb lreturned c'.2 = true)).
  intros n m IH c Hn Hm.
  destruct (forallb lreturned c.2) eqn:Hall; [exists c; split; [constructor|done]|].
  destruct (lprogress c Hall) as (c1 & Hstep & Hlt). subst n m.
  destruct (IH _ _ Hlt c1 eq_refl eq_refl) as (c' & Hs & Hc').
  exists c'. split; [by eapply star_step|done].
Qed.

(** C30: No call blocks forever on [cacheMu]: whatever the calls in
    progress and whoever holds the mutex, some interleaving of their
    statements runs every call to its return, and a configuration in
    which no thread can take a step (all blocked on the mutex, or
    returned) is one in which every call has returned: the RWMutex
    cannot deadlock the service. *)
Theorem lock_calls_return (c : @LConf W) :
  (exists c', star lstep c c' /\ forallb lreturned c'.2 = true) /\
  ((forall c', ~ lstep c c') -> forallb lreturned c.2 = true).
Proof.
  split; [exact (lreturn_all _ _ c eq_refl eq_refl)|].
  intros Hstuck. destruct (forallb lreturned c.2) eqn:Hall; [done|].
  destruct (lprogress c Hall) as (c1 & Hstep & _). by destruct (Hstuck c1).
Qed.
End runs.

(** ** The atomic sections are justified *)

Section refines.
Context {W : Type} `{RepositoryLaws W}.

(** C10: Refinement of the atomic sections by the RWMutex: from
    configurations in which the write lock excludes every other holder
    (for instance calls not started yet), every interleaving of the
    methods' statements under [cacheMu] keeps that exclusion and is
    matched, step for step or by a stutter, by an interleaving of the
    atomic steps of [Interleaving]; so what holds there holds here: in
    particular every cached identifier stays an identifier of the store. *)
Theorem lock_refines_atomic (c c' : @LConf W) :
  excl c.2 -> star lstep c c' ->
  excl c'.2 /\ star step (abs c) (abs c') /\ (inv (abs c) -> dom (cache c'.1) ⊆ keys c'.1).
Proof.
  intros Hx Hs. destruct (lstar_sim c c' Hs Hx) as [Hx' Hst]. split_and!; [done|done|].
  intros Hinv. destruct (star_ind_inv step inv _ _ step_inv Hst Hinv) as (_ & Hc & _).
  etrans; [apply pending_dom|exact Hc].
Qed.
End refines.

(** ** Calls on distinct identifiers keep the cache coherent *)

(** A call of [Interleaving] at a point where it holds nothing: a method
    at its start, or between a store call and the [Lock] that follows it. *)
Definition lcall (t : thread) : lthread :=
  match t with
  | GetStart uid => LGetStart uid
  | GetRead uid => LGetStore uid
  | GetFill uid o => LGetLock uid o
  | CreateStart o => LCreateStart o
  | CreateFill o => LCreateLock o
  | RestoreStart => LRestoreStart
  | RestoreFill os => LRestoreLock os
  | Returned r => LReturned r
  end.

Lemma abs_lcall_start {W} (s : Sys W) ts : abs (s, lcall <$> ts) = (s, ts).
Proof.
  unfold abs. cbn [fst snd]. rewrite pending_none.
  - destruct s. f_equal. rewrite <- list_fmap_compose, (list_fmap_ext _ id); [apply list_fmap_id|].
    intros _ t _. by destruct t.
  - intros j tj Hj. apply list_lookup_fmap_Some in Hj as (t & -> & _). by destruct t.
Qed.

Lemma can_lock_lcall ts : can_lock (lcall <$> ts) = true.
Proof.
  apply forallb_forall. intros x Hx%list_elem_of_In.
  apply list_elem_of_fmap in Hx as (t & -> & _). by destruct t.
Qed.

(** A configuration where every call has returned is its own image. *)
Lemma abs_returned {W} (c : @LConf W) :
  forallb lreturned c.2 = true ->
  (abs c).1 = c.1 /\ Forall (fun t => exists r, t = Returned r) (abs c).2.
Proof.
  intros Hret. unfold abs; simpl. split.
  - rewrite pending_none; [by destruct c as [[] ?]|].
    intros j tj Hj. pose proof (forallb_lookup_true _ _ _ _ Hret Hj). by destruct tj.
  - apply Forall_fmap, Forall_forall. intros t Ht.
    pose proof (proj1 (forallb_forall _ _) Hret t Ht) as Hr. destruct t; by eauto.
Qed.

Section distinct_lock.
Context {W : Type} `{RepositoryLaws W}.

(** C3: Calls on pairwise distinct identifiers keep the cache coherent
    under [cacheMu]: lookups of the HTTP handlers and updates of the
    consumer's partitions, each about an identifier no other call is
    about, interleaved statement by statement in any way from a coherent
    state, leave every cached order what the store holds for its key (up
    to the columns the upsert leaves alone) once they have all returned. *)
Theorem distinct_calls_coherent (s : Sys W) ts0 (c : LConf) :
  coherent s -> distinct_calls ts0 -> star lstep (s, lcall <$> ts0) c ->
  forallb lreturned c.2 = true -> coherent c.1.
Proof.
  intros Hs Hd Hstar Hret.
  destruct (lstar_sim _ _ Hstar) as [_ Hst]; [by apply can_lock_excl, can_lock_lcall|].
  rewrite abs_lcall_start in Hst. destruct (abs_returned c Hret) as [Hc Hall].
  rewrite <- Hc. exact (distinct_calls_coherent_atomic s ts0 (abs c) Hs Hd Hst Hall).
Qed.
End distinct_lock.

(** ** Two calls on one identifier *)

Section races.
Context {W : Type} `{RepositoryLaws W}.

Lemma lrun_sched_cons sched i (c : LConf) t t' (s' : Sys W) :
  c.2 !! i = Some t -> lexec c.2 t c.1 = Some (t', s') ->
  lrun_sched (i :: sched) c = lrun_sched sched (s', <[i := t']> c.2).
Proof. intros Hi He. unfold lrun_sched. simpl. unfold lsched_step at 2. by rewrite Hi, He. Qed.

(** Runs a schedule statement by statement; [tac] rewrites with what the
    store answers. *)
Ltac lrun_with tac :=
  repeat (erewrite lrun_sched_cons;
          [cbn [fst snd]|reflexivity|cbn [lexec repo cache fst snd]; tac; reflexivity]).

(** A cached order that no earlier version of the store's row explains
    breaks coherence. *)
Lemma stale_incoherent (s : Sys W) k o v :
  cache s !! k = Some o -> stored (repo s) !! k = Some v ->
  (forall old, upsert_view old o <> v) -> ~ coherent s.
Proof.
  intros Hc Hv Hne [_ Hcoh]. destruct (Hcoh k o Hc) as [old Hold].
  rewrite Hv in Hold. injection Hold as Hold. by apply (Hne old).
Qed.

(** C12: The read-through race of [GetOrderByUID] (lines 67-75) with
    [CreateOrder] under [cacheMu]: whenever a lookup misses, reads [o1]
    from the store, and an update [o] of the same identifier is saved
    after that read, the lookup can take [Lock] after the update has
    cached [o] and overwrite it with [o1].  Both calls succeed; the store
    holds the update and the cache the older order, which every later
    lookup serves, since nothing evicts it: as soon as the update is
    visible in the table, coherence is lost. *)
Theorem read_through_race_stale (s : Sys W) o o1 w1 w2 u o' :
  winv (repo s) -> Order.wf o = true -> Order.OrderUID o <> "" ->
  cache s !! Order.OrderUID o = None ->
  Store.GetOrderByUID (Order.OrderUID o) (repo s) = (w1, Ok o1) ->
  Store.SaveOrder o w1 = (w2, Ok (u, o')) ->
  let c := lrun_sched [0; 0; 0; 0; 1; 1; 1; 1; 0; 0; 0]
             (s, [LGetStart (Order.OrderUID o); LCreateStart o]) in
  c.2 = [LReturned (Ok (RResp (modelToResponse o1))); LReturned (Ok RUnit)] /\
  cache c.1 !! Order.OrderUID o = Some o1 /\
  stored (repo c.1) !! Order.OrderUID o = Some (upsert_view (Some o1) o) /\
  orderService.GetOrderByUID (Order.OrderUID o) c.1 = (c.1, Ok (modelToResponse o1)) /\
  ((forall old, upsert_view old o1 <> upsert_view (Some o1) o) -> ~ coherent c.1).
Proof.
  intros Hw Hwf Huid Hmiss Hget Hsave.
  destruct (get_spec _ _ _ _ Hw Hget) as (Hw1 & Hst1 & Ho1).
  destruct (save_spec _ _ _ _ Hw1 Hwf Hsave) as [_ (-> & _ & Ho' & Hst2)].
  cbv zeta. lrun_with ltac:(rewrite ?Hmiss, ?Hget, ?Hsave). unfold lrun_sched; simpl.
  rewrite (Ho' Huid) in *.
  assert (stored w2 !! Order.OrderUID o = Some (upsert_view (Some o1) o)) as Hv.
  { rewrite Hst2, lookup_insert_eq, Hst1, (Ho1 o1 eq_refl). done. }
  split_and!; [done|apply lookup_insert_eq|exact Hv| |].
  - apply GetOrderByUID_hit. apply lookup_insert_eq.
  - apply stale_incoherent with (k := Order.OrderUID o) (v := upsert_view (Some o1) o);
      [apply lookup_insert_eq|exact Hv].
Qed.

(** C14: Two updates of one identifier, from two partitions' loops, race
    under [cacheMu]: the first saves [oa], the second saves [ob] and
    caches it, and only then does the first take [Lock] and cache [oa].
    Both succeed; the last write to the table was [ob], but the cache
    holds [oa] and serves it from then on: last write does not win, and
    as soon as [ob] is visible in the table coherence is lost. *)
Theorem create_create_race_stale (s : Sys W) oa ob wa wb ua ub oa' ob' :
  winv (repo s) -> Order.wf oa = true -> Order.wf ob = true ->
  Order.OrderUID oa <> "" -> Order.OrderUID ob = Order.OrderUID oa ->
  Store.SaveOrder oa (repo s) = (wa, Ok (ua, oa')) ->
  Store.SaveOrder ob wa = (wb, Ok (ub, ob')) ->
  let c := lrun_sched [0; 1; 1; 1; 1; 0; 0; 0] (s, [LCreateStart oa; LCreateStart ob]) in
  let v := upsert_view (Some (upsert_view (stored (repo s) !! Order.OrderUID oa) oa)) ob in
  c.2 = [LReturned (Ok RUnit); LReturned (Ok RUnit)] /\
  cache c.1 !! Order.OrderUID oa = Some oa /\
  stored (repo c.1) !! Order.OrderUID oa = Some v /\
  orderService.GetOrderByUID (Order.OrderUID oa) c.1 = (c.1, Ok (modelToResponse oa)) /\
  ((forall old, upsert_view old oa <> v) -> ~ coherent c.1).
Proof.
  intros Hw Hwfa Hwfb Huid Hk Hsa Hsb.
  destruct (save_spec _ _ _ _ Hw Hwfa Hsa) as [Hwa (-> & _ & Hoa & Hsta)].
  destruct (save_spec _ _ _ _ Hwa Hwfb Hsb) as [_ (-> & _ & Hob & Hstb)].
  cbv zeta. lrun_with ltac:(rewrite ?Hsa, ?Hsb). unfold lrun_sched; simpl.
  rewrite (Hoa Huid), (Hob ltac:(congruence)) in *. rewrite Hk in *.
  assert (stored wb !! Order.OrderUID oa =
          Some (upsert_view (Some (upsert_view (stored (repo s) !! Order.OrderUID oa) oa)) ob)) as Hv.
  { by rewrite Hstb, lookup_insert_eq, Hsta, lookup_insert_eq. }
  split_and!; [done|apply lookup_insert_eq|exact Hv| |].
  - apply GetOrderByUID_hit. apply lookup_insert_eq.
  - apply stale_incoherent with (k := Order.OrderUID oa) (v := _); [apply lookup_insert_eq|exact Hv].
Qed.
End races.

(** ** A run *)

(** A lookup, a save and a restore over the three stored orders.  The
    schedule lets the restore take the write lock first; the lookup's
    [RLock] (the fourth step) is blocked until the loop is done. *)
Definition lconf0 : @LConf DB := (mkSys ∅ dbC, [LGetStart "C1"; LCreateStart oA; LRestoreStart]).

Definition lsched0 : list nat := [2; 2; 2; 0; 1; 2; 2; 2; 0; 0; 0; 1; 1; 1].

Lemma lock_refines_atomic_witness :
  excl (lrun_sched lsched0 lconf0).2 /\
  star step (abs lconf0) (abs (lrun_sched lsched0 lconf0)) /\
  (inv (abs lconf0) -> dom (cache (lrun_sched lsched0 lconf0).1) ⊆ keys (lrun_sched lsched0 lconf0).1).
Proof.
  apply lock_refines_atomic; [apply can_lock_excl; vm_compute; reflexivity|apply lrun_sched_star].
Defined.

Lemma lock_calls_return_witness :
  exists c', star lstep lconf0 c' /\ forallb lreturned c'.2 = true.
Proof. exact (proj1 (lock_calls_return lconf0)). Defined.

(** Calls on distinct identifiers: a lookup of an unknown identifier and
    an update, interleaved so that the update's [Lock] waits for the
    lookup's [RUnlock]. *)
Definition lschedD : list nat := [0; 1; 0; 0; 1; 1; 0; 1].

Lemma distinct_calls_coherent_witness : coherent (lrun_sched lschedD (s0, lcall <$> tsD)).1.
Proof.
  apply (distinct_calls_coherent s0 tsD);
    [apply coherent_empty_cache; keyed_db|exact tsD_distinct|apply lrun_sched_star|].
  vm_compute. reflexivity.
Defined.

(** [A1] is stored as [v1] ([T1]) and not cached; a request reads it
    while a message updates it to [v2] ([T2]). *)
Definition dbv1 : DB := repo race0.1.
Definition dbv2 : DB := healthy (PgRepo.upsert (PgRepo.order_row v2) (rows dbv1)).
Definition v3 : Order.t := sample "A1" "T3" "".
Definition dbv3 : DB := healthy (PgRepo.upsert (PgRepo.order_row v3) (rows dbv2)).

Lemma read_through_race_stale_witness :
  let c := lrun_sched [0; 0; 0; 0; 1; 1; 1; 1; 0; 0; 0]
             (race0.1, [LGetStart (Order.OrderUID v2); LCreateStart v2]) in
  c.2 = [LReturned (Ok (RResp (modelToResponse v1))); LReturned (Ok RUnit)] /\
  cache c.1 !! Order.OrderUID v2 = Some v1 /\
  stored (repo c.1) !! Order.OrderUID v2 = Some (upsert_view (Some v1) v2) /\
  orderService.GetOrderByUID (Order.OrderUID v2) c.1 = (c.1, Ok (modelToResponse v1)) /\
  ((forall old, upsert_view old v1 <> upsert_view (Some v1) v2) -> ~ coherent c.1).
Proof.
  apply (read_through_race_stale race0.1 v2 v1 dbv1 dbv2 "A1" v2);
    [keyed_db|vm_compute; reflexivity|discriminate|vm_compute; reflexivity..].
Defined.

Lemma create_create_race_stale_witness :
  let c := lrun_sched [0; 1; 1; 1; 1; 0; 0; 0] (race0.1, [LCreateStart v2; LCreateStart v3]) in
  let v := upsert_view (Some (upsert_view (stored (repo race0.1) !! Order.OrderUID v2) v2)) v3 in
  c.2 = [LReturned (Ok RUnit); LReturned (Ok RUnit)] /\
  cache c.1 !! Order.OrderUID v2 = Some v2 /\
  stored (repo c.1) !! Order.OrderUID v2 = Some v /\
  orderService.GetOrderByUID (Order.OrderUID v2) c.1 = (c.1, Ok (modelToResponse v2)) /\
  ((forall old, upsert_view old v2 <> v) -> ~ coherent c.1).
Proof.
  apply (create_create_race_stale race0.1 v2 v3 dbv2 dbv3 "A1" "A1" v2 v3);
    [keyed_db|vm_compute; reflexivity|vm_compute; reflexivity|discriminate|vm_compute; reflexivity..].
Defined.
