(* ===== verification/Process.v ===== *)
(** * The running process ([cmd/server/main.go] after start-up)

    Once [main] has started, three kinds of goroutine share the one
    [orderService]: the HTTP server's handlers ([srv.ListenAndServe]),
    the Kafka consumer ([go kafkaConsumer.Start()], then one
    [consumePartition] loop per partition), and [main] itself, blocked on
    [<-quit] until a signal.  The process is a state machine fed with what
    happens to it, in the order it happens:
    - [Request m path]: a request reaches the server ([ServeHTTP]);
    - [StartConsumer]: the goroutine of [Start] asks for the partitions;
      an error is [log.Fatalf];
    - [Deliver p ev]: sarama hands [ev] to partition [p]'s loop, which
      receives it only if the loop runs and, for a message, its offset is
      at or after the newest offset at start ([delivered]);
    - [ServeFailed e]: [ListenAndServe] returns an error other than
      [http.ErrServerClosed]: [log.Fatalf] in the server's goroutine;
    - [Signal]: [SIGINT] or [SIGTERM]: [shutdown], after which [main]
      returns.
    A [log.Fatalf] ends the process at once, without the deferred closes;
    an ended process does nothing more.

    The inputs are taken one at a time: each request and each event is
    handled to its end before the next.  That is exact for what this file
    proves, which is about the process's phases, the start-up and the
    shutdown; the service calls of the handlers and of the partition loops
    overlap in the program, and what that does to the cache is proved in
    [CacheMu]. *)

From S2P Require Import Prelude Config Model Json Store Response Service Consumer Handler Router System Scenarios Main.

Inductive Input :=
| Request (method path : string)
| StartConsumer
| Deliver (partition : Z) (ev : PartitionEvent)
| ServeFailed (e : string)
| Signal.

Inductive Phase :=
| Running
| Fatal (f : failure)   (** ended by [log.Fatalf] *)
| Stopped.              (** [main] returned after [Shutdown] *)

Record PState := mkPState {
  host : Host;
  app : App;                          (** the one [orderService] and its database *)
  started : bool;                     (** [Start] has run *)
  loops : list Z;                     (** partitions whose loops run *)
  answers : list (option HttpResponse);
  phase : Phase }.

(** The process after [main]: serving, or ended by a fatal start-up. *)
Definition boot (p : Proc) : PState :=
  match main p with
  | (p', Ok c) => mkPState p'.1 (mkSys c p'.2) false [] [] Running
  | (p', Err f) => mkPState p'.1 (mkSys ∅ p'.2) false [] [] (Fatal f)
  end.

Definition set_app (st : PState) (s : App) : PState :=
  mkPState (host st) s (started st) (loops st) (answers st) (phase st).

Definition set_phase (st : PState) (ph : Phase) : PState :=
  mkPState (host st) (app st) (started st) (loops st) (answers st) ph.

(** What the process does with one input. *)
Definition pstep (b : Broker) (st : PState) (i : Input) : PState :=
  match phase st with
  | Running =>
      match i with
      | Request m path =>
          let '(s', r) := ServeHTTP m path (app st) in
          mkPState (host st) s' (started st) (loops st) (answers st ++ [r]) Running
      | StartConsumer =>
          if started st then st else
          match Start b with
          | Err e => set_phase st (Fatal (Wrapped "Failed to get partitions" (Cause e)))
          | Ok ps => mkPState (host st) (app st) true ps (answers st) Running
          end
      | Deliver p ev =>
          if delivered (loops st) (NewestOffset b) (p, ev)
          then set_app st (consumeEvent (app st) ev) else st
      | ServeFailed e => set_phase st (Fatal (Wrapped "Failed to start server" (Cause e)))
      | Signal =>
          let '(p', r) := shutdown (host st, repo (app st)) in
          mkPState p'.1 (app st) (started st) (loops st) (answers st)
            (match r with Ok _ => Stopped | Err f => Fatal f end)
      end
  | _ => st
  end.

Definition run (b : Broker) (st : PState) (inputs : list Input) : PState :=
  foldl (pstep b) st inputs.

(** The whole process on a host, a database and what happens to it. *)
Definition process (b : Broker) (p : Proc) (inputs : list Input) : PState :=
  run b (boot p) inputs.

(** ** Runs of the process *)

Lemma run_app b st xs ys : run b st (xs ++ ys) = run b (run b st xs) ys.
Proof. unfold run. by rewrite foldl_app. Qed.

(** An ended process ignores what happens to it. *)
Lemma run_ended b st xs : phase st <> Running -> run b st xs = st.
Proof.
  intros Hph. unfold run. induction xs as [|x xs IH]; [done|]. simpl.
  unfold pstep at 2. by destruct (phase st).
Qed.

(** A property of the state that holds after [boot] and that every step
    keeps holds in every state the process reaches. *)
Lemma run_inv (P : PState -> Prop) b st xs :
  (forall st i, P st -> P (pstep b st i)) -> P st -> P (run b st xs).
Proof.
  intros Hstep. unfold run. revert st.
  induction xs as [|x xs IH]; intros st Hst; simpl; [done|]. by apply IH, Hstep.
Qed.

Lemma shutdown_spec (p p' : Proc) r :
  shutdown p = (p', r) -> p'.2 = p.2 /\ (is_ok r = false -> trace p'.1 = trace p.1).
Proof.
  destruct p as [[e x tr] d].
  unfold shutdown, ConsumerClose, external, libcall, wrap, emit, bind, modify. simpl.
  repeat (case_match; simplify_eq/=); by intros [= <- <-].
Qed.

Definition is_close (ev : Event) : bool := match ev with Closed _ => true | _ => false end.

(** Closes only happen in a stopped process. *)
Definition closes_stopped (st : PState) : Prop :=
  Forall (fun ev => is_close ev = true -> phase st = Stopped) (trace (host st)).

Lemma closes_stopped_none st :
  Forall (fun ev => is_close ev = false) (trace (host st)) -> closes_stopped st.
Proof. apply Forall_impl. intros ev ->. done. Qed.

Lemma closes_stopped_running st :
  closes_stopped st -> phase st = Running -> Forall (fun ev => is_close ev = false) (trace (host st)).
Proof.
  intros Hc Hph. revert Hc; apply Forall_impl. intros ev Hev.
  destruct (is_close ev); [|done]. by rewrite Hev, Hph in *.
Qed.

Lemma boot_closes_stopped p :
  Forall (fun ev => is_close ev = false) (trace p.1) -> closes_stopped (boot p).
Proof.
  intros Hp. apply closes_stopped_none. unfold boot.
  destruct (main p) as [p' r] eqn:Hm. destruct (main_inv _ _ _ Hm) as (evs & Htr & Hevs & _).
  assert (Forall (fun ev => is_close ev = false) (trace p'.1)).
  { rewrite Htr, Forall_app. split; [done|]. revert Hevs; apply Forall_impl.
    by intros [] ?. }
  by destruct r.
Qed.

Lemma pstep_closes_stopped b st i : closes_stopped st -> closes_stopped (pstep b st i).
Proof.
  intros Hc. unfold pstep. destruct (phase st) eqn:Hph; [|done|done].
  pose proof (closes_stopped_running st Hc Hph) as Hnone.
  destruct i as [m path| |p ev|e|].
  - destruct (ServeHTTP m path (app st)). by apply closes_stopped_none.
  - destruct (started st); [done|].
    destruct (Start b); by apply closes_stopped_none.
  - destruct (delivered _ _ _); [by apply closes_stopped_none|done].
  - by apply closes_stopped_none.
  - destruct (shutdown (host st, repo (app st))) as [p' r] eqn:Hsd.
    destruct r as [u|f]; [by apply Forall_true|].
    apply closes_stopped_none. simpl. by rewrite (proj2 (shutdown_spec _ _ _ Hsd) eq_refl).
Qed.

(** ** What every run of the process guarantees *)

(** C15: A process ends once: the deferred closes of the Kafka consumer
    and of the pool appear only in a process that stopped after a
    successful [Shutdown], never after a [log.Fatalf] (of start-up, of
    [Start], of [ListenAndServe] or of [Shutdown]); and an ended process
    does nothing with what happens afterwards. *)
Theorem process_ends_once b p inputs more :
  Forall (fun ev => is_close ev = false) (trace p.1) ->
  ((exists w, Closed w ∈ trace (host (process b p inputs))) ->
   phase (process b p inputs) = Stopped) /\
  (phase (process b p inputs) <> Running -> process b p (inputs ++ more) = process b p inputs).
Proof.
  intros Hp. split.
  - intros [w Hw]. unfold process in *.
    assert (closes_stopped (run b (boot p) inputs)) as Hc.
    { apply run_inv; [apply pstep_closes_stopped|by apply boot_closes_stopped]. }
    unfold closes_stopped in Hc. rewrite Forall_forall in Hc. apply (Hc (Closed w)); [by apply list_elem_of_In|done].
  - intros Hph. unfold process. rewrite run_app. by apply run_ended.
Qed.

(** ** Runs *)

(** The server cannot listen: the process ends, the signal that follows
    finds nothing to shut down. *)
Definition inputs2 : list Input :=
  [Request "GET" "/health"; ServeFailed "listen tcp :8080: bind: address already in use"].

Lemma process_ends_once_witness :
  ((exists w, Closed w ∈ trace (host (process broker1 (host0, dbC) inputs2))) ->
   phase (process broker1 (host0, dbC) inputs2) = Stopped) /\
  (phase (process broker1 (host0, dbC) inputs2) <> Running ->
   process broker1 (host0, dbC) (inputs2 ++ [Signal]) = process broker1 (host0, dbC) inputs2).
Proof. apply process_ends_once. constructor. Defined.
